(** * benchttp runner: the bounded dispatcher and the requester built on it

  A shallow embedding of

  - [dispatcher/dispatcher.go]: [New], [validate] and [Do] (the semaphore
    pattern: acquire, start a goroutine, release in a deferred function);
  - [requester/requester.go]: [appendRecord], the closure built by
    [record], [cloneRequest], [ping] and [Run];
  - [request/report.go]: [Collect];
  - package semimpl: [Do] and [handleContextError], the dispatcher before
    it validated its input;
  - [dispatcher/dispatcher_test.go]: the helpers [groupby], [minof] and
    [maxof];
  - package config: [Config.Override] with the field names of
    [config/field.go], and [overrideHeader] and [Global.Validate] of
    [config/config.go];
  - package requester, the variant whose [Run] is given the request.

  [Do] is concurrent.  It is modelled as a transition system over the
  program points of the main goroutine and of every goroutine it starts;
  a schedule (a list of actions) picks the interleaving, so that a
  statement about every schedule is a statement about every run. *)

From Stdlib Require Import ZArith String List Bool Lia.
From stdpp Require Import base list gmap strings.
Import ListNotations.

Open Scope string_scope.
Open Scope list_scope.
Open Scope Z_scope.

(** ** Go values shared by the packages *)

(** Go's [int] on the 64-bit targets the runner is built for. *)
Module GoInt.

Definition min_int : Z := - 2 ^ 63.
Definition max_int : Z := 2 ^ 63 - 1.

Definition in_range (z : Z) : Prop := min_int <= z <= max_int.

(** Two's complement wrap-around of [+], [++] on [int]. *)
Definition wrap (z : Z) : Z := (z + 2 ^ 63) mod 2 ^ 64 - 2 ^ 63.

(** [x++] *)
Definition incr (z : Z) : Z := wrap (z + 1).

(** [len(s)] of a slice *)
Definition len {A : Type} (s : list A) : Z := Z.of_nat (length s).

End GoInt.

(** The package-level error variables the code compares against or wraps.
  [ErrInvalidValue] is [errors.New("invalid value")] in package
  dispatcher; [Canceled] and [DeadlineExceeded] are those of package
  context; the three others are declared in package requester. *)
Inductive sentinel : Type :=
| ErrInvalidValue
| ErrRequest
| ErrConnection
| ErrRequestBody
| Canceled
| DeadlineExceeded.

(** A non-nil [error] value.  [wrapError format w ints] is the value of
  [fmt.Errorf(format, w, ...)] where [w] is the operand of [%w] and
  [ints] the operands of the [%d] verbs in order; [wrapCause format w e]
  is the value of [fmt.Errorf(format, w, e)] where [e] is the operand of
  [%s]. *)
Inductive error : Type :=
| errorVar (v : sentinel)
| errorString (text : string)
| wrapError (format : string) (w : error) (ints : list Z)
| wrapCause (format : string) (w : error) (cause : error).

Definition sentinel_eqb (a b : sentinel) : bool :=
match a, b with
| ErrInvalidValue, ErrInvalidValue
| ErrRequest, ErrRequest
| ErrConnection, ErrConnection
| ErrRequestBody, ErrRequestBody
| Canceled, Canceled
| DeadlineExceeded, DeadlineExceeded => true
| _, _ => false
end.

(** [errors.Is(e, target)] for a package-level [target]: follow the [%w]
  chain. *)
Fixpoint errors_Is (e : error) (target : sentinel) : bool :=
match e with
| errorVar v => sentinel_eqb v target
| errorString _ => false
| wrapError _ w _ => errors_Is w target
| wrapCause _ w _ => errors_Is w target
end.

(** [e == target] on interface values: a value built by [errors.New] or
  [fmt.Errorf] at run time is a fresh pointer, equal to no package-level
  variable. *)
Definition error_eq_var (e : error) (target : sentinel) : bool :=
match e with
| errorVar v => sentinel_eqb v target
| _ => false
end.

(** A value of type [func()]: [nil] or a function. *)
Inductive func : Type :=
| nil_func
| closure (label : string).

(** What a call does: return a value, or panic with
  [fmt.Sprintf(format, operand)]. *)
Inductive outcome (A : Type) : Type :=
| Returns (a : A)
| Panics (format : string) (operand : Z).
Arguments Returns {A} a.
Arguments Panics {A} format operand.

(** ** golang.org/x/sync/semaphore, as far as [Do] uses it

  [Weighted] carries its capacity [size] and the weight currently held
  [cur].  [Acquire(ctx, 1)] blocks until a unit is free or [ctx] is done;
  it returns [nil] after taking a unit and [ctx.Err()] leaving the
  semaphore unchanged.  [Release(1)] gives a unit back and panics when
  more is released than held. *)
Module semaphore.

Record Weighted : Type := { size : Z; cur : Z }.

Definition NewWeighted (n : Z) : Weighted := {| size := n; cur := 0 |}.

(** The [nil] return of [Acquire(ctx, 1)]: [None] while no unit is
    free. *)
Definition Acquire (s : Weighted) : option Weighted :=
  if cur s + 1 <=? size s
  then Some {| size := size s; cur := cur s + 1 |}
  else None.

(** [Release(1)]: [None] is the panic. *)
Definition Release (s : Weighted) : option Weighted :=
  if cur s - 1 <? 0
  then None
  else Some {| size := size s; cur := cur s - 1 |}.

End semaphore.

(** ** Package dispatcher *)
Module dispatcher.

Record dispatcher : Type := {
  numWorker : Z;
  sem : semaphore.Weighted
}.

Definition validate (d : dispatcher) (maxIter : Z) (callback : func)
  : option error :=
  if maxIter <? 1 then
    Some (wrapError "%w: maxIter: must be < 1, got %d"
            (errorVar ErrInvalidValue) [maxIter])
  else if maxIter <? numWorker d then
    Some (wrapError
            "%w: maxIter: must be >= numWorker, got numWorker == %d, maxIter == %d"
            (errorVar ErrInvalidValue) [maxIter; numWorker d])
  else match callback with
       | nil_func =>
           Some (wrapError "%w: callback: must be non-nil"
                   (errorVar ErrInvalidValue) [])
       | closure _ => None
       end.

(** [New]; [int64(numWorker)] is the identity on a 64-bit [int]. *)
Definition New (numWorker : Z) : outcome dispatcher :=
  if numWorker <? 1 then
    Panics "invalid numWorker value: must be > 1, got %d" numWorker
  else
    Returns {| numWorker := numWorker;
               sem := semaphore.NewWeighted numWorker |}.

(** *** The run of [Do] *)

(** Program point of the goroutine that called [Do]. *)
Inductive pc : Type :=
| AtCond                        (* evaluating [i < maxIter || maxIter == 0] *)
| AtAcquire                     (* [wg.Add(1)] done, inside [d.sem.Acquire(ctx, 1)] *)
| AtGo                          (* [Acquire] returned nil, before the [go] statement *)
| AtWait                        (* inside [wg.Wait()] *)
| Done (ret : option error)     (* [Do] has returned [ret] *)
| Panicked.                     (* a goroutine panicked: the process is gone *)

(** Program point of a goroutine started by the [go] statement. *)
Inductive phase : Type :=
| Started                       (* created, [callback()] not entered yet *)
| InCallback                    (* the body of [callback] has started and not returned *)
| Deferred                      (* [callback] returned, deferred function not run yet *)
| Released                      (* [d.sem.Release(1)] done, [wg.Done()] not yet *)
| Exited.                       (* [wg.Done()] done *)

Record state : Type := {
  main : pc;
  i : Z;                          (* the loop variable *)
  wg : Z;                         (* counter of the WaitGroup *)
  gate : semaphore.Weighted;      (* [*d.sem] *)
  ctx_done : bool;                (* [ctx.Done()] is closed *)
  goroutines : list phase         (* in creation order *)
}.

Definition set_main (p : pc) (s : state) : state :=
  {| main := p; i := i s; wg := wg s; gate := gate s;
     ctx_done := ctx_done s; goroutines := goroutines s |}.

Definition set_wg (n : Z) (s : state) : state :=
  {| main := main s; i := i s; wg := n; gate := gate s;
     ctx_done := ctx_done s; goroutines := goroutines s |}.

Definition set_gate (g : semaphore.Weighted) (s : state) : state :=
  {| main := main s; i := i s; wg := wg s; gate := g;
     ctx_done := ctx_done s; goroutines := goroutines s |}.

Definition set_phase (k : nat) (p : phase) (s : state) : state :=
  {| main := main s; i := i s; wg := wg s; gate := gate s;
     ctx_done := ctx_done s; goroutines := <[k := p]> (goroutines s) |}.

(** The [go] statement followed by [i++]. *)
Definition spawn (s : state) : state :=
  {| main := AtCond; i := GoInt.incr (i s); wg := wg s; gate := gate s;
     ctx_done := ctx_done s; goroutines := goroutines s ++ [Started] |}.

(** [wg.Done()]: [None] is the panic on a negative counter. *)
Definition wg_Done (s : state) : option state :=
  if wg s - 1 <? 0 then None else Some (set_wg (wg s - 1) s).

(** What the scheduler can pick.  When the context is done and a unit is
    free, both returns of [Acquire] are possible: which one the library
    gives has changed between its versions, and a run may see either. *)
Inductive action : Type :=
| Main                  (* the next statement of the caller of [Do];
                           at [Acquire], its nil return *)
| AcquireErr            (* [Acquire] returns [ctx.Err()] *)
| Worker (k : nat)      (* the next statement of the k-th goroutine *)
| CtxDone.              (* the deadline passes or [cancel] is called *)

Definition main_step (maxIter : Z) (s : state) : option state :=
  match main s with
  | AtCond =>
      if (i s <? maxIter) || (maxIter =? 0)
      then Some (set_main AtAcquire (set_wg (wg s + 1) s))
      else Some (set_main AtWait s)
  | AtAcquire =>
      match semaphore.Acquire (gate s) with
      | Some g => Some (set_main AtGo (set_gate g s))
      | None => None
      end
  | AtGo => Some (spawn s)
  | AtWait => if wg s =? 0 then Some (set_main (Done None) s) else None
  | Done _ | Panicked => None
  end.

(** The error branch of the loop body: [wg.Done()] then [break]. *)
Definition acquire_err_step (s : state) : option state :=
  match main s with
  | AtAcquire =>
      if ctx_done s
      then match wg_Done s with
           | Some s' => Some (set_main AtWait s')
           | None => Some (set_main Panicked s)
           end
      else None
  | _ => None
  end.

Definition worker_step (k : nat) (s : state) : option state :=
  match main s with
  | Panicked => None
  | _ =>
      match goroutines s !! k with
      | Some Started => Some (set_phase k InCallback s)
      | Some InCallback => Some (set_phase k Deferred s)
      | Some Deferred =>
          match semaphore.Release (gate s) with
          | Some g => Some (set_phase k Released (set_gate g s))
          | None => Some (set_main Panicked s)
          end
      | Some Released =>
          match wg_Done s with
          | Some s' => Some (set_phase k Exited s')
          | None => Some (set_main Panicked s)
          end
      | Some Exited | None => None
      end
  end.

Definition set_ctx_done (s : state) : state :=
  {| main := main s; i := i s; wg := wg s; gate := gate s;
     ctx_done := true; goroutines := goroutines s |}.

Definition ctx_step (s : state) : option state :=
  match main s with
  | Panicked => None
  | _ => if ctx_done s then None else Some (set_ctx_done s)
  end.

(** One step; [None] when the action is not enabled. *)
Definition exec (maxIter : Z) (a : action) (s : state) : option state :=
  match a with
  | Main => main_step maxIter s
  | AcquireErr => acquire_err_step s
  | Worker k => worker_step k s
  | CtxDone => ctx_step s
  end.

Fixpoint run (maxIter : Z) (sched : list action) (s : state) : option state :=
  match sched with
  | [] => Some s
  | a :: sched' =>
      match exec maxIter a s with
      | Some s' => run maxIter sched' s'
      | None => None
      end
  end.

(** [Do]: the state in which the call starts, after [validate].  A
    rejected call has already returned.  [done0] tells whether [ctx] is
    done at the call. *)
Definition Do (d : dispatcher) (done0 : bool) (maxIter : Z) (callback : func)
  : state :=
  {| main := match validate d maxIter callback with
             | Some err => Done (Some err)
             | None => AtCond
             end;
     i := 0; wg := 0; gate := sem d; ctx_done := done0; goroutines := [] |}.

(** *** Observations on a state *)

Fixpoint count (f : phase -> bool) (l : list phase) : Z :=
  match l with
  | [] => 0
  | p :: l' => Z.b2z (f p) + count f l'
  end.

Definition in_callback (p : phase) : bool :=
  match p with InCallback => true | _ => false end.

(** The goroutine holds a unit of the semaphore. *)
Definition holding (p : phase) : bool :=
  match p with Started | InCallback | Deferred => true | _ => false end.

(** The goroutine has not called [wg.Done()] yet. *)
Definition alive (p : phase) : bool :=
  match p with Exited => false | _ => true end.

(** The body of [callback] has been entered. *)
Definition entered (p : phase) : bool :=
  match p with Started => false | _ => true end.

(** The body of [callback] has returned. *)
Definition completed (p : phase) : bool :=
  match p with Started | InCallback => false | _ => true end.

(** Callback invocations whose body has started and not yet returned. *)
Definition executing (s : state) : Z := count in_callback (goroutines s).

(** Callback invocations started so far. *)
Definition invocations (s : state) : Z := count entered (goroutines s).

(** Callback invocations that have returned so far. *)
Definition executions (s : state) : Z := count completed (goroutines s).

(** Iterations issued so far: goroutines started by the [go] statement. *)
Definition issued (s : state) : Z := GoInt.len (goroutines s).

Definition returned (s : state) : bool :=
  match main s with Done _ => true | _ => false end.

(** The main goroutine holds a unit it has not handed to a goroutine. *)
Definition at_go (p : pc) : bool :=
  match p with AtGo => true | _ => false end.

(** The main goroutine has done [wg.Add(1)] for an iteration whose
    goroutine does not exist yet. *)
Definition pending (p : pc) : bool :=
  match p with AtAcquire | AtGo => true | _ => false end.

(** The main goroutine has left the loop. *)
Definition left_loop (p : pc) : bool :=
  match p with AtWait | Done _ => true | _ => false end.

(** The actions of the program itself, as opposed to those of the
    context. *)
Definition program_action (a : action) : bool :=
  match a with Main | Worker _ => true | AcquireErr | CtxDone => false end.

(** *** Invariants of a run *)

(** The semaphore and the WaitGroup count what the goroutines are doing. *)
Record gate_inv (d : dispatcher) (s : state) : Prop := {
  gi_size : semaphore.size (gate s) = numWorker d;
  gi_cur : semaphore.cur (gate s)
           = count holding (goroutines s) + Z.b2z (at_go (main s));
  gi_le : semaphore.cur (gate s) <= semaphore.size (gate s);
  gi_wg : wg s = count alive (goroutines s) + Z.b2z (pending (main s));
  gi_run : main s <> Panicked;
  gi_done : returned s = true -> count alive (goroutines s) = 0
}.

(** The loop variable counts the goroutines started. *)
Record loop_inv (maxIter : Z) (s : state) : Prop := {
  li_len : i s = issued s;
  li_le : i s <= maxIter;
  li_lt : pending (main s) = true -> i s < maxIter;
  li_exit : ctx_done s = false -> left_loop (main s) = true -> i s = maxIter;
  li_ret : forall r, main s = Done r -> r = None
}.

(** Both invariants, along a run of a validated call. *)
Definition inv (d : dispatcher) (maxIter : Z) (s : state) : Prop :=
  gate_inv d s /\ loop_inv maxIter s.

(** *** The steps of a run in which no goroutine panics *)

Inductive step (maxIter : Z) : action -> state -> state -> Prop :=
| step_enter s :
    main s = AtCond -> (i s <? maxIter) || (maxIter =? 0) = true ->
    step maxIter Main s (set_main AtAcquire (set_wg (wg s + 1) s))
| step_leave s :
    main s = AtCond -> (i s <? maxIter) || (maxIter =? 0) = false ->
    step maxIter Main s (set_main AtWait s)
| step_acquire s g :
    main s = AtAcquire -> semaphore.Acquire (gate s) = Some g ->
    step maxIter Main s (set_main AtGo (set_gate g s))
| step_go s :
    main s = AtGo -> step maxIter Main s (spawn s)
| step_return s :
    main s = AtWait -> wg s = 0 ->
    step maxIter Main s (set_main (Done None) s)
| step_break s :
    main s = AtAcquire -> ctx_done s = true -> 1 <= wg s ->
    step maxIter AcquireErr s (set_main AtWait (set_wg (wg s - 1) s))
| step_call k s :
    returned s = false -> goroutines s !! k = Some Started ->
    step maxIter (Worker k) s (set_phase k InCallback s)
| step_back k s :
    returned s = false -> goroutines s !! k = Some InCallback ->
    step maxIter (Worker k) s (set_phase k Deferred s)
| step_release k s g :
    returned s = false -> goroutines s !! k = Some Deferred ->
    semaphore.Release (gate s) = Some g ->
    step maxIter (Worker k) s (set_phase k Released (set_gate g s))
| step_exit k s :
    returned s = false -> goroutines s !! k = Some Released -> 1 <= wg s ->
    step maxIter (Worker k) s (set_phase k Exited (set_wg (wg s - 1) s))
| step_ctx s :
    ctx_done s = false -> step maxIter CtxDone s (set_ctx_done s).

(** *** A bound on the steps that remain *)

Definition phase_left (p : phase) : Z :=
  match p with
  | Started => 4 | InCallback => 3 | Deferred => 2 | Released => 1 | Exited => 0
  end.

Fixpoint work_left (l : list phase) : Z :=
  match l with
  | [] => 0
  | p :: l' => phase_left p + work_left l'
  end.

Definition main_left (maxIter : Z) (s : state) : Z :=
  match main s with
  | AtCond => 7 * (maxIter - i s) + 2
  | AtAcquire => 7 * (maxIter - i s) + 1
  | AtGo => 7 * (maxIter - i s)
  | AtWait => 1
  | Done _ | Panicked => 0
  end.

Definition steps_left (maxIter : Z) (s : state) : Z :=
  main_left maxIter s + work_left (goroutines s)
  + (if ctx_done s then 0 else 1).

End dispatcher.

(** ** Package dispatcher: a callback that panics

    [Do] recovers nothing.  When [callback()] panics in a goroutine, the
    goroutine unwinds: its deferred function runs ([d.sem.Release(1)],
    then [wg.Done()]) and, the panic reaching the top of the goroutine,
    the runtime ends the process.  The other goroutines go on until then. *)
Module unwinding.
Import dispatcher.

Record state : Type := {
  program : dispatcher.state;
  panicking : list nat            (* the goroutines whose callback panicked *)
}.

Inductive action : Type :=
| Step (a : dispatcher.action)  (* a step of [dispatcher.exec]; for a goroutine
                                   that unwinds, of its deferred function *)
| CallbackPanics (k : nat)      (* [callback()] panics in the k-th goroutine *)
| Crash (k : nat).              (* the panic of the k-th goroutine, its deferred
                                   function done, ends the process *)

Definition is_panicking (k : nat) (s : state) : bool :=
  existsb (Nat.eqb k) (panicking s).

Definition exec (maxIter : Z) (a : action) (s : state) : option state :=
  match a with
  | Step a' =>
      match dispatcher.exec maxIter a' (program s) with
      | Some t => Some {| program := t; panicking := panicking s |}
      | None => None
      end
  | CallbackPanics k =>
      match main (program s), goroutines (program s) !! k with
      | Panicked, _ => None
      | _, Some InCallback =>
          Some {| program := set_phase k Deferred (program s);
                  panicking := k :: panicking s |}
      | _, _ => None
      end
  | Crash k =>
      match main (program s), goroutines (program s) !! k with
      | Panicked, _ => None
      | _, Some Exited =>
          if is_panicking k s
          then Some {| program := set_main Panicked (program s);
                       panicking := panicking s |}
          else None
      | _, _ => None
      end
  end.

Fixpoint run (maxIter : Z) (sched : list action) (s : state) : option state :=
  match sched with
  | [] => Some s
  | a :: sched' =>
      match exec maxIter a s with
      | Some s' => run maxIter sched' s'
      | None => None
      end
  end.

Definition Do (d : dispatcher) (done0 : bool) (maxIter : Z) (callback : func)
  : state :=
  {| program := dispatcher.Do d done0 maxIter callback; panicking := [] |}.

(** The bookkeeping is that of a run without panic, up to the moment the
    process is ended; it is ended for a goroutine whose callback panicked
    and whose deferred function is done. *)
Definition inv (d : dispatcher) (s : state) : Prop :=
  gate_inv d (program s) \/
  exists t k,
    gate_inv d t /\ program s = set_main Panicked t /\
    In k (panicking s) /\ goroutines t !! k = Some Exited.

End unwinding.

(** ** Package requester *)
Module requester.

(** [time.Duration]: nanoseconds. *)
Definition Duration : Type := Z.

(** Modelled from the spec: the type [Event] of package requester is
    declared outside the files at hand; the spec describes the events of a
    Record as an ordered sequence of named timing sub-events. *)
Record Event : Type := { Name : string; At : Duration }.

(** [Record]: the summary of one attempt; [Error] is [None] for nil. *)
Record RecordT : Type := {
  Time : Duration;
  Code : Z;
  Bytes : Z;
  Error : option error;
  Events : list Event
}.

(** The fields of [config.Config] the requester reads. *)
Record Config : Type := {
  Method : string;
  URL : option string;            (* [Request.URL], [None] for nil, else its String() *)
  Timeout : Duration;             (* [Request.Timeout] *)
  Requests : Z;                   (* [RunnerOptions.Requests] *)
  Concurrency : Z;                (* [RunnerOptions.Concurrency] *)
  GlobalTimeout : Duration;       (* [RunnerOptions.GlobalTimeout] *)
  Interval : Duration             (* [RunnerOptions.Interval] *)
}.

(** What the closure looks at in a [*http.Request]. *)
Record HttpRequest : Type := {
  req_method : string;
  req_url : string;
  has_body : bool                 (* [req.Body != nil] *)
}.

Record Response : Type := { StatusCode : Z }.

(** The answers of the network and of the standard library during one
    invocation of the closure. *)
Record Attempt : Type := {
  GetBody : option error;                      (* error of [req.GetBody()] *)
  client_Do : Response + error;                (* [r.client.Do(reqClone)] *)
  ReadAll : list Byte.byte + error;            (* [io.ReadAll(resp.Body)] *)
  Since : Duration;                            (* [time.Since(sent)] *)
  tracer_events : list Event                   (* [r.tracer.events] *)
}.

(** The answers the surroundings give to one call of [Run]. *)
Record World : Type := {
  ParseRequestURI : string -> bool;            (* [url.ParseRequestURI] succeeds *)
  NewRequest : string -> string -> HttpRequest + error;   (* [http.NewRequest] *)
  ping_Do : option error;                      (* error of the pre-flight [r.client.Do(req)] *)
  attempts : list Attempt                      (* one per invocation of the closure, in the
                                                  order in which they take the mutex *)
}.

(** [Requester]: the fields that hold the records and the outcome.  The
    mutex makes [appendRecord] atomic, so a state is the result of a
    sequence of calls. *)
Record Requester : Type := {
  records : list RecordT;
  numErr : Z;
  runErr : option error;
  done : bool;
  config : Config
}.

(** [New]: [make([]Record, 0, recordsCap)] has length 0. *)
Definition New (cfg : Config) : Requester :=
  {| records := []; numErr := 0; runErr := None; done := false; config := cfg |}.

Definition appendRecord (r : Requester) (rec : RecordT) : Requester :=
  {| records := records r ++ [rec];
     numErr := match Error rec with
               | Some _ => GoInt.incr (numErr r)
               | None => numErr r
               end;
     runErr := runErr r; done := done r; config := config r |}.

(** The Record carries a non-nil error. *)
Definition failed (rec : RecordT) : bool :=
  match Error rec with Some _ => true | None => false end.

(** [count(records where error != nil)] *)
Fixpoint count_failed (l : list RecordT) : Z :=
  match l with
  | [] => 0
  | rec :: l' => Z.b2z (failed rec) + count_failed l'
  end.

(** The Records without error, in order. *)
Fixpoint successes (l : list RecordT) : list RecordT :=
  match l with
  | [] => []
  | rec :: l' => if failed rec then successes l' else rec :: successes l'
  end.

(** [Config.HTTPRequest]. *)
Definition HTTPRequest (w : World) (cfg : Config) : HttpRequest + error :=
  match URL cfg with
  | None => inr (errorString "empty url")
  | Some rawURL =>
      if ParseRequestURI w rawURL
      then NewRequest w (Method cfg) rawURL
      else inr (errorString "bad url")
  end.

Definition ping (w : World) (req : HttpRequest) : option error := ping_Do w.

Definition cloneRequest (a : Attempt) (req : HttpRequest) : HttpRequest + error :=
  if has_body req then
    match GetBody a with
    | Some _ => inr (errorVar ErrRequestBody)
    | None => inl req
    end
  else inl req.

(** What an invocation of the closure does that others can see, in
    order. *)
Inductive effect : Type :=
| Appended (rec : RecordT)        (* [r.appendRecord(rec)] *)
| Printed                         (* [fmt.Print(r.state())] *)
| Slept (d : Duration)            (* [time.Sleep(d)] *)
| BodyClosed.                     (* the deferred [resp.Body.Close()] *)

Definition failure (err : error) : RecordT :=
  {| Time := 0; Code := 0; Bytes := 0; Error := Some err; Events := [] |}.

(** One invocation of the closure returned by [record]: the Requester
    after it and what it did. *)
Definition record (req : HttpRequest) (interval : Duration) (a : Attempt)
    (r : Requester) : Requester * list effect :=
  match cloneRequest a req with
  | inr _ =>
      let rec := failure (errorVar ErrRequestBody) in
      (appendRecord r rec, [Appended rec])
  | inl reqClone =>
      match client_Do a with
      | inr err =>
          let rec := failure err in
          (appendRecord r rec, [Appended rec])
      | inl resp =>
          match ReadAll a with
          | inr err =>
              let rec := failure err in
              (appendRecord r rec, [Appended rec; BodyClosed])
          | inl body =>
              let rec := {| Time := Since a; Code := StatusCode resp;
                            Bytes := GoInt.len body; Error := None;
                            Events := tracer_events a |} in
              (appendRecord r rec,
               [Appended rec; Printed; Slept interval; BodyClosed])
          end
      end
  end.

(** The Requester after the invocations of the closure that a run of
    [Do] performs. *)
Definition dispatch (req : HttpRequest) (interval : Duration)
    (l : list Attempt) (r : Requester) : Requester :=
  fold_left (fun r a => fst (record req interval a r)) l r.

Definition set_runErr (e : option error) (r : Requester) : Requester :=
  {| records := records r; numErr := numErr r; runErr := e;
     done := done r; config := config r |}.

Definition set_done (r : Requester) : Requester :=
  {| records := records r; numErr := numErr r; runErr := runErr r;
     done := true; config := config r |}.

Section Run.

(** [Report] and [makeReport] are declared outside the files at hand. *)
Context {Report : Type}.
Variable zeroReport : Report.                                   (* [Report{}] *)
Variable makeReport : Config -> list RecordT -> Z -> Report.

(** [Run].  The value [Do] returns is the one of [validate]; when it is
    nil, the closure has run once per element of [attempts w]. *)
Definition Run (w : World) (r : Requester)
  : outcome (Requester * (Report * option error)) :=
  match HTTPRequest w (config r) with
  | inr err =>
      Returns (r, (zeroReport, Some (wrapCause "%w: %s" (errorVar ErrRequest) err)))
  | inl req =>
      match ping w req with
      | Some err =>
          Returns (r, (zeroReport,
                       Some (wrapCause "%w: %s" (errorVar ErrConnection) err)))
      | None =>
          let numWorker := Concurrency (config r) in
          let maxIter := Requests (config r) in
          let interval := Interval (config r) in
          match dispatcher.New numWorker with
          | Panics f n => Panics f n
          | Returns d =>
              let ret := dispatcher.validate d maxIter (closure "record") in
              let r1 := match ret with
                        | None => dispatch req interval (attempts w) r
                        | Some _ => r
                        end in
              let r2 := set_runErr ret r1 in
              match ret with
              | Some e =>
                  if error_eq_var e Canceled || error_eq_var e DeadlineExceeded
                  then let r3 := set_done r2 in
                       Returns (r3, (makeReport (config r3) (records r3) (numErr r3), None))
                  else Returns (r2, (zeroReport, Some e))
              | None =>
                  let r3 := set_done r2 in
                  Returns (r3, (makeReport (config r3) (records r3) (numErr r3), None))
              end
          end
      end
  end.

End Run.

End requester.

(** ** Package request *)
Module request.

(** [record.Record] has the shape of the Record of package requester. *)
Definition RecordT : Type := requester.RecordT.

Record Report : Type := {
  Records : list RecordT;
  Length : Z;
  Success : Z;
  Fail : Z
}.

(** The body of the [for rec := range r.Records] loop. *)
Definition Collect_body (rep : Report) (rec : RecordT) : Report :=
  let rep1 :=
    match requester.Error rec with
    | Some _ =>
        {| Records := Records rep; Length := Length rep;
           Success := Success rep; Fail := GoInt.incr (Fail rep) |}
    | None =>
        {| Records := Records rep ++ [rec]; Length := Length rep;
           Success := Success rep; Fail := Fail rep |}
    end in
  {| Records := Records rep1; Length := GoInt.incr (Length rep1);
     Success := Success rep1; Fail := Fail rep1 |}.

(** [Collect]; [chan] is what the channel [r.Records] delivers until it is
    closed. *)
Definition Collect (chan : list RecordT) : Report :=
  let rep := fold_left Collect_body chan
               {| Records := []; Length := 0; Success := 0; Fail := 0 |} in
  {| Records := Records rep; Length := GoInt.len (Records rep);
     Success := Success rep; Fail := Fail rep |}.

End request.

(** ** Package semimpl: the dispatcher before it validated its input

    [semimpl.Do] builds its semaphore at each call and runs the loop of
    [dispatcher.Do] without [validate]; an error of [Acquire] goes through
    [handleContextError]. *)
Module semimpl.
Import dispatcher.

(** [handleContextError]: [true] when it ends the process with
    [log.Fatal]. *)
Definition handleContextError (err : option error) : bool :=
  match err with
  | None => false
  | Some e =>
      if errors_Is e DeadlineExceeded then false
      else if errors_Is e Canceled then false
      else true
  end.

(** One step.  [ctx_err] is the value of [ctx.Err()] once the context is
    done.  The steps are those of [dispatcher.exec] but for two: the call
    of a nil [callback] panics, and an error of [Acquire] that
    [handleContextError] does not know ends the process. *)
Definition exec (ctx_err : error) (callback : func) (maxIter : Z)
    (a : action) (s : state) : option state :=
  match a with
  | Worker k =>
      match callback, goroutines s !! k, main s with
      | nil_func, Some Started, Panicked => None
      | nil_func, Some Started, _ => Some (set_main Panicked s)
      | _, _, _ => dispatcher.exec maxIter a s
      end
  | AcquireErr =>
      match dispatcher.exec maxIter a s with
      | Some s' =>
          if handleContextError (Some ctx_err)
          then Some (set_main Panicked s)
          else Some s'
      | None => None
      end
  | Main | CtxDone => dispatcher.exec maxIter a s
  end.

Fixpoint run (ctx_err : error) (callback : func) (maxIter : Z)
    (sched : list action) (s : state) : option state :=
  match sched with
  | [] => Some s
  | a :: sched' =>
      match exec ctx_err callback maxIter a s with
      | Some s' => run ctx_err callback maxIter sched' s'
      | None => None
      end
  end.

(** [Do]: the state in which the loop starts, with the semaphore of
    [semaphore.NewWeighted(int64(numWorkers))]. *)
Definition Do (done0 : bool) (numWorkers maxIter : Z) : state :=
  {| main := AtCond; i := 0; wg := 0;
     gate := semaphore.NewWeighted numWorkers;
     ctx_done := done0; goroutines := [] |}.

(** The [n]-th turn of the loop followed by the whole life of the
    goroutine it starts. *)
Definition turn (n : nat) : list action :=
  [Main; Main; Main; Worker n; Worker n; Worker n; Worker n].

Fixpoint turns (n : nat) : list action :=
  match n with
  | O => []
  | S n' => turns n' ++ turn n'
  end.

(** The state after [n] such turns. *)
Definition after_turns (numWorkers : Z) (n : nat) : state :=
  {| main := AtCond; i := Nat.iter n GoInt.incr 0; wg := 0;
     gate := semaphore.NewWeighted numWorkers;
     ctx_done := false; goroutines := repeat Exited n |}.

End semimpl.

(** ** The helpers of the tests of package dispatcher *)
Module dispatcher_test.

(** [src[lo:hi]] for [0 <= lo <= hi <= len(src)]. *)
Definition slice (src : list Z) (lo hi : Z) : list Z :=
  take (Z.to_nat (hi - lo)) (drop (Z.to_nat lo) src).

(** The loop of [groupby], [n] turns from index [i]. *)
Fixpoint groupby_loop (src : list Z) (by_ : Z) (n : nat) (i : Z)
    (out : list (list Z)) : list (list Z) :=
  match n with
  | O => out
  | S n' =>
      let lo := by_ * i in
      let hi := lo + by_ in
      groupby_loop src by_ n' (i + 1) (out ++ [slice src lo hi])
  end.

(** [groupby]: the integer division panics on a zero divisor and
    truncates toward zero; [make] panics on a negative capacity. *)
Definition groupby (src : list Z) (by_ : Z) : outcome (list (list Z)) :=
  if by_ =? 0 then Panics "runtime error: integer divide by zero" by_
  else
    let numGroups := Z.quot (GoInt.len src) by_ in
    if numGroups <? 0 then Panics "runtime error: makeslice: cap out of range" numGroups
    else Returns (groupby_loop src by_ (Z.to_nat numGroups) 0 []).

Definition minof (src : list Z) : Z :=
  fold_left (fun min d => if (d <? min) || (min =? 0) then d else min) src 0.

Definition maxof (src : list Z) : Z :=
  fold_left (fun max d => if d >? max then d else max) src 0.

End dispatcher_test.

(** ** Package config *)
Module config.

Definition FieldMethod : string := "method".
Definition FieldURL : string := "url".
Definition FieldHeader : string := "header".
Definition FieldTimeout : string := "timeout".
Definition FieldRequests : string := "requests".
Definition FieldConcurrency : string := "concurrency".
Definition FieldInterval : string := "interval".
Definition FieldGlobalTimeout : string := "globalTimeout".
Definition FieldBodyType : string := "bodyType".
Definition FieldBodyContent : string := "bodyContent".

(** [Config], its [Request] and [RunnerOptions] side by side; [URL] is
    [None] for a nil pointer. *)
Record Config : Type := {
  Method : string;
  URL : option string;
  Timeout : Z;
  Requests : Z;
  Concurrency : Z;
  GlobalTimeout : Z
}.

(** The body of the loop of [Config.Override]: the [switch] on one
    field. *)
Definition Override_field (c : Config) (cfg : Config) (field : string) : Config :=
  if String.eqb field FieldMethod then
    {| Method := Method c; URL := URL cfg; Timeout := Timeout cfg;
       Requests := Requests cfg; Concurrency := Concurrency cfg;
       GlobalTimeout := GlobalTimeout cfg |}
  else if String.eqb field FieldURL then
    {| Method := Method cfg; URL := URL c; Timeout := Timeout cfg;
       Requests := Requests cfg; Concurrency := Concurrency cfg;
       GlobalTimeout := GlobalTimeout cfg |}
  else if String.eqb field FieldTimeout then
    {| Method := Method cfg; URL := URL cfg; Timeout := Timeout c;
       Requests := Requests cfg; Concurrency := Concurrency cfg;
       GlobalTimeout := GlobalTimeout cfg |}
  else if String.eqb field FieldRequests then
    {| Method := Method cfg; URL := URL cfg; Timeout := Timeout cfg;
       Requests := Requests c; Concurrency := Concurrency cfg;
       GlobalTimeout := GlobalTimeout cfg |}
  else if String.eqb field FieldConcurrency then
    {| Method := Method cfg; URL := URL cfg; Timeout := Timeout cfg;
       Requests := Requests cfg; Concurrency := Concurrency c;
       GlobalTimeout := GlobalTimeout cfg |}
  else if String.eqb field FieldGlobalTimeout then
    {| Method := Method cfg; URL := URL cfg; Timeout := Timeout cfg;
       Requests := Requests cfg; Concurrency := Concurrency cfg;
       GlobalTimeout := GlobalTimeout c |}
  else cfg.

(** [cfg.Override(c, fields...)] *)
Definition Override (cfg c : Config) (fields : list string) : Config :=
  fold_left (Override_field c) fields cfg.

(** [field] is one of [fields]. *)
Definition listed (field : string) (fields : list string) : bool :=
  existsb (fun f => String.eqb f field) fields.

(** *** The configuration with headers and outputs ([Global]) *)

(** [http.Header]; [None] is the nil map. *)
Definition Header : Type := option (gmap string (list string)).

(** [overrideHeader]: the value of [cfg.Request.Header] after the call,
    from its value before and [newHeader].  The entries of [newHeader]
    are assigned one by one. *)
Definition overrideHeader (old newHeader : Header) : Header :=
  match newHeader with
  | None => old
  | Some new =>
      let h := match old with
               | None => ∅
               | Some h => h
               end in
      Some (map_fold (fun k v h => <[k := v]> h) h new)
  end.

(** The fields of [Global] that [Validate] reads. *)
Record Global : Type := {
  GURL : option string;             (* [Request.URL], by its [String()] *)
  GRequests : Z;                    (* [Runner.Requests] *)
  GConcurrency : Z;                 (* [Runner.Concurrency] *)
  GInterval : Z;                    (* [Runner.Interval] *)
  GRequestTimeout : Z;              (* [Runner.RequestTimeout] *)
  GGlobalTimeout : Z;               (* [Runner.GlobalTimeout] *)
  GOut : list string                (* [Output.Out] *)
}.

(** An error built by [errors.New] or by [fmt.Errorf] without [%w]: the
    format with its operands. *)
Record inputError : Type := {
  format : string;
  ints : list Z;
  strs : list string
}.

Definition dq : string := String (Ascii.ascii_of_nat 34) EmptyString.

(** [(want one or many of "benchttp", "json", "stdout")] *)
Definition want_outputs : string :=
  ("(want one or many of " ++ dq ++ "benchttp" ++ dq ++ ", " ++ dq ++ "json"
   ++ dq ++ ", " ++ dq ++ "stdout" ++ dq ++ ")")%string.

Section Validate.

(** [url.ParseRequestURI] succeeds; [IsOutput], declared outside the
    files at hand. *)
Variable ParseRequestURI : string -> bool.
Variable IsOutput : string -> bool.

(** The errors [Global.Validate] gathers, in order. *)
Definition inputErrors (cfg : Global) : list inputError :=
  (match GURL cfg with
   | None => [ {| format := "-url: missing url"; ints := []; strs := [] |} ]
   | Some u =>
       if ParseRequestURI u then []
       else [ {| format := "-url: %s is not a valid url"; ints := []; strs := [u] |} ]
   end)
  ++ (if (GRequests cfg <? 1) && negb (GRequests cfg =? -1)
      then [ {| format := "-requests: must be >= 0, we got %d";
                ints := [GRequests cfg]; strs := [] |} ]
      else [])
  ++ (if (GConcurrency cfg <? 1) || (GConcurrency cfg >? GRequests cfg)
      then [ {| format := "-concurrency: must be > 0 and <= requests (%d), we got %d";
                ints := [GRequests cfg; GConcurrency cfg]; strs := [] |} ]
      else [])
  ++ (if GInterval cfg <? 0
      then [ {| format := "-interval: must be > 0, we got %d";
                ints := [GInterval cfg]; strs := [] |} ]
      else [])
  ++ (if GRequestTimeout cfg <? 0
      then [ {| format := "-timeout: must be > 0, we got %d";
                ints := [GRequestTimeout cfg]; strs := [] |} ]
      else [])
  ++ (if GGlobalTimeout cfg <? 0
      then [ {| format := "-globalTimeout: must be > 0, we got %d";
                ints := [GGlobalTimeout cfg]; strs := [] |} ]
      else [])
  ++ (match GOut cfg with
      | [] => [ {| format := ("-out: missing " ++ want_outputs)%string;
                   ints := []; strs := [] |} ]
      | out =>
          flat_map (fun o =>
            if IsOutput o then []
            else [ {| format := ("-out: invalid value: %s " ++ want_outputs)%string;
                      ints := []; strs := [o] |} ]) out
      end).

(** [Global.Validate]: [None] is nil, [Some errs] is [&ErrInvalid{errs}]. *)
Definition Validate (cfg : Global) : option (list inputError) :=
  match inputErrors cfg with
  | [] => None
  | errs => Some errs
  end.

End Validate.

End config.

(** ** Package requester, the variant whose [Run] is given the request

    Its [Config] is its own and [Run] starts at the pre-flight request;
    the closure sends the request as it is. *)
Module requester_req.

Definition Duration : Type := requester.Duration.
Definition RecordT : Type := requester.RecordT.

Record Config : Type := {
  Requests : Z;
  Concurrency : Z;
  Interval : Duration;
  RequestTimeout : Duration;
  GlobalTimeout : Duration
}.

Record Requester : Type := {
  records : list RecordT;
  numErr : Z;
  config : Config
}.

Definition New (cfg : Config) : Requester :=
  {| records := []; numErr := 0; config := cfg |}.

Definition appendRecord (r : Requester) (rec : RecordT) : Requester :=
  {| records := records r ++ [rec];
     numErr := match requester.Error rec with
               | Some _ => GoInt.incr (numErr r)
               | None => numErr r
               end;
     config := config r |}.

(** One invocation of the closure returned by [record]. *)
Definition record (interval : Duration) (a : requester.Attempt)
    (r : Requester) : Requester * list requester.effect :=
  match requester.client_Do a with
  | inr err =>
      let rec := requester.failure err in
      (appendRecord r rec, [requester.Appended rec])
  | inl resp =>
      match requester.ReadAll a with
      | inr err =>
          let rec := requester.failure err in
          (appendRecord r rec, [requester.Appended rec; requester.BodyClosed])
      | inl body =>
          let rec := {| requester.Time := requester.Since a;
                        requester.Code := requester.StatusCode resp;
                        requester.Bytes := GoInt.len body;
                        requester.Error := None;
                        requester.Events := requester.tracer_events a |} in
          (appendRecord r rec,
           [requester.Appended rec; requester.Slept interval;
            requester.BodyClosed])
      end
  end.

Definition dispatch (interval : Duration) (l : list requester.Attempt)
    (r : Requester) : Requester :=
  fold_left (fun r a => fst (record interval a r)) l r.

Section Run.

Context {Report : Type}.
Variable zeroReport : Report.                         (* [Report{}] *)
Variable makeReport : list RecordT -> Z -> Report.

(** [Run(req)]; [ping_Do w] is the error of the pre-flight request and
    [attempts w] what the invocations of the closure meet. *)
Definition Run (w : requester.World) (r : Requester)
  : outcome (Requester * (Report * option error)) :=
  match requester.ping_Do w with
  | Some err =>
      Returns (r, (zeroReport,
                   Some (wrapCause "%w: %s" (errorVar ErrConnection) err)))
  | None =>
      let numWorker := Concurrency (config r) in
      let maxIter := Requests (config r) in
      let interval := Interval (config r) in
      match dispatcher.New numWorker with
      | Panics f n => Panics f n
      | Returns d =>
          match dispatcher.validate d maxIter (closure "record") with
          | Some err => Returns (r, (zeroReport, Some err))
          | None =>
              let r1 := dispatch interval (requester.attempts w) r in
              Returns (r1, (makeReport (records r1) (numErr r1), None))
          end
      end
  end.

End Run.

End requester_req.

(** * Properties *)

(** ** Go integers *)
Module GoInt_facts.
Import GoInt.

Lemma wrap_id (z : Z) : in_range z -> wrap z = z.
Proof.
  unfold in_range, wrap, min_int, max_int. intros H.
  rewrite Z.mod_small; lia.
Qed.

Lemma incr_succ (z : Z) : 0 <= z < max_int -> incr z = z + 1.
Proof.
  intros H. unfold incr. apply wrap_id.
  unfold in_range, min_int, max_int in *. lia.
Qed.

Lemma len_nonneg {A : Type} (l : list A) : 0 <= len l.
Proof. unfold len. lia. Qed.

Lemma len_app {A : Type} (l l' : list A) : len (l ++ l') = len l + len l'.
Proof. unfold len. rewrite length_app. lia. Qed.

End GoInt_facts.

(** ** The dispatcher *)
Module dispatcher_facts.
Import semaphore dispatcher GoInt_facts.

(** *** Counting goroutines *)

Lemma Zle_0_b2z_aux (b : bool) : 0 <= Z.b2z b <= 1.
Proof. destruct b; simpl; lia. Qed.

Lemma count_nonneg (f : phase -> bool) (l : list phase) : 0 <= count f l.
Proof. induction l as [|p l IH]; simpl; [lia | destruct (f p); simpl; lia]. Qed.

Lemma count_app (f : phase -> bool) (l l' : list phase) :
  count f (l ++ l') = count f l + count f l'.
Proof. induction l as [|p l IH]; simpl; [reflexivity | rewrite IH; lia]. Qed.

Lemma count_insert (f : phase -> bool) (l : list phase) (k : nat) (p q : phase) :
  l !! k = Some p ->
  count f (<[k := q]> l) = count f l - Z.b2z (f p) + Z.b2z (f q).
Proof.
  revert k. induction l as [|a l IH]; intros [|k] H; simpl in *; try discriminate.
  - injection H as ->. lia.
  - rewrite (IH k H). lia.
Qed.

Lemma count_lookup (f : phase -> bool) (l : list phase) (k : nat) (p : phase) :
  l !! k = Some p -> f p = true -> 1 <= count f l.
Proof.
  revert k. induction l as [|a l IH]; intros [|k] H Hf; simpl in *; try discriminate.
  - injection H as ->. rewrite Hf. pose proof (count_nonneg f l). simpl. lia.
  - pose proof (IH k H Hf). destruct (f a); simpl; lia.
Qed.

Lemma count_le_len (f : phase -> bool) (l : list phase) : count f l <= GoInt.len l.
Proof.
  unfold GoInt.len. induction l as [|a l IH]; simpl length; simpl count; [lia|].
  destruct (f a); simpl Z.b2z; lia.
Qed.

Lemma count_mono (f g : phase -> bool) (l : list phase) :
  (forall p, f p = true -> g p = true) -> count f l <= count g l.
Proof.
  intros Hfg. induction l as [|a l IH]; simpl; [lia|].
  specialize (Hfg a). destruct (f a), (g a); simpl; try lia.
  all: discriminate (Hfg eq_refl).
Qed.

(** When no goroutine is alive, each one has run the callback to its
    end. *)
Lemma count_alive_zero (l : list phase) :
  count alive l = 0 ->
  count entered l = GoInt.len l /\ count completed l = GoInt.len l /\
  count in_callback l = 0 /\ count holding l = 0.
Proof.
  unfold GoInt.len. induction l as [|a l IH]; simpl length; simpl count; intros H.
  - repeat split; reflexivity.
  - pose proof (count_nonneg alive l).
    destruct a; simpl in *; lia.
Qed.

Lemma alive_lookup (l : list phase) :
  1 <= count alive l -> exists k p, l !! k = Some p /\ alive p = true.
Proof.
  induction l as [|a l IH]; simpl; intros H; [lia|].
  destruct (alive a) eqn:Ha.
  - exists 0%nat, a. split; [reflexivity | exact Ha].
  - destruct IH as (k & p & Hk & Hp); [simpl in H; lia|].
    exists (S k), p. split; assumption.
Qed.

Lemma work_left_nonneg (l : list phase) : 0 <= work_left l.
Proof. induction l as [|a l IH]; simpl; [lia | destruct a; simpl; lia]. Qed.

Lemma work_left_app (l l' : list phase) :
  work_left (l ++ l') = work_left l + work_left l'.
Proof. induction l as [|a l IH]; simpl; [reflexivity | rewrite IH; lia]. Qed.

Lemma work_left_insert (l : list phase) (k : nat) (p q : phase) :
  l !! k = Some p ->
  work_left (<[k := q]> l) = work_left l - phase_left p + phase_left q.
Proof.
  revert k. induction l as [|a l IH]; intros [|k] H; simpl in *; try discriminate.
  - injection H as ->. lia.
  - rewrite (IH k H). lia.
Qed.

Lemma len_insert (l : list phase) (k : nat) (q : phase) :
  GoInt.len (<[k := q]> l) = GoInt.len l.
Proof. unfold GoInt.len. rewrite length_insert. reflexivity. Qed.

(** *** The invariants hold along every run *)

Lemma New_inv (W : Z) (d : dispatcher) :
  New W = Returns d ->
  1 <= W /\ numWorker d = W /\ sem d = NewWeighted W.
Proof.
  unfold New. destruct (W <? 1) eqn:E; [discriminate|].
  intros [= <-]. simpl. apply Z.ltb_ge in E. auto.
Qed.

Lemma gate_inv_Do (W : Z) (d : dispatcher) (done0 : bool) (M : Z) (cb : func) :
  New W = Returns d -> gate_inv d (Do d done0 M cb).
Proof.
  intros HN. destruct (New_inv _ _ HN) as (HW & Hn & Hs).
  unfold Do. rewrite Hs.
  destruct (validate d M cb); constructor; simpl; try lia; try discriminate;
    reflexivity.
Qed.

Lemma gate_inv_exec (d : dispatcher) (M : Z) (a : action) (s s' : state) :
  gate_inv d s -> exec M a s = Some s' -> gate_inv d s'.
Proof.
  intros [Hsz Hcur Hle Hwg Hrun Hdone].
  destruct s as [m j w [sz cu] c l]. simpl in *.
  destruct a as [| |k|]; simpl.
  - (* Main *)
    unfold main_step; simpl. destruct m; simpl in *; try discriminate.
    + destruct ((j <? M) || (M =? 0)); intros [= <-];
        constructor; simpl in *; try lia; try discriminate; auto.
    + unfold Acquire; simpl. destruct (cu + 1 <=? sz) eqn:E; [|discriminate].
      apply Z.leb_le in E. intros [= <-].
      constructor; simpl in *; try lia; try discriminate.
    + intros [= <-]. constructor; simpl in *; rewrite ?count_app; simpl;
        try lia; try discriminate.
    + destruct (w =? 0) eqn:E; [|discriminate]. apply Z.eqb_eq in E.
      intros [= <-]. constructor; simpl in *; try lia; try discriminate.
  - (* AcquireErr *)
    unfold acquire_err_step; simpl. destruct m; simpl in *; try discriminate.
    destruct c; [|discriminate]. unfold wg_Done; simpl.
    pose proof (count_nonneg alive l).
    destruct (w - 1 <? 0) eqn:E; [apply Z.ltb_lt in E; lia|].
    intros [= <-]. constructor; simpl in *; try lia; try discriminate.
  - (* Worker *)
    unfold worker_step; simpl.
    destruct (l !! k) as [p|] eqn:Hk;
      [|destruct m; discriminate].
    assert (Hal : alive p = true -> returned
              {| main := m; i := j; wg := w; gate := {| size := sz; cur := cu |};
                 ctx_done := c; goroutines := l |} = false).
    { intros Hp. destruct m; try reflexivity. simpl in Hdone.
      pose proof (count_lookup alive l k p Hk Hp).
      specialize (Hdone eq_refl). lia. }
    pose proof (count_nonneg alive l) as Hna.
    pose proof (count_nonneg holding l) as Hnh.
    assert (Hm : m <> Panicked) by exact Hrun.
    destruct p.
    + (* Started *)
      intros H. assert (s' = set_phase k InCallback
          {| main := m; i := j; wg := w; gate := {| size := sz; cur := cu |};
             ctx_done := c; goroutines := l |}) as -> by (destruct m; congruence).
      specialize (Hal eq_refl). simpl in Hal.
      constructor; simpl; rewrite ?(count_insert _ _ _ _ _ Hk); simpl;
        try lia; try assumption. intros E. destruct m; discriminate.
    + (* InCallback *)
      intros H. assert (s' = set_phase k Deferred
          {| main := m; i := j; wg := w; gate := {| size := sz; cur := cu |};
             ctx_done := c; goroutines := l |}) as -> by (destruct m; congruence).
      specialize (Hal eq_refl). simpl in Hal.
      constructor; simpl; rewrite ?(count_insert _ _ _ _ _ Hk); simpl;
        try lia; try assumption. intros E. destruct m; discriminate.
    + (* Deferred *)
      pose proof (count_lookup holding l k _ Hk eq_refl) as H1.
      pose proof (Zle_0_b2z_aux (at_go m)) as Hb.
      unfold Release; simpl.
      destruct (cu - 1 <? 0) eqn:E; [apply Z.ltb_lt in E; lia|].
      intros H. assert (s' = set_phase k Released (set_gate {| size := sz; cur := cu - 1 |}
          {| main := m; i := j; wg := w; gate := {| size := sz; cur := cu |};
             ctx_done := c; goroutines := l |})) as -> by (destruct m; congruence).
      specialize (Hal eq_refl). simpl in Hal.
      constructor; simpl; rewrite ?(count_insert _ _ _ _ _ Hk); simpl;
        try lia; try assumption. intros E'. destruct m; discriminate.
    + (* Released *)
      pose proof (count_lookup alive l k _ Hk eq_refl) as H1.
      pose proof (Zle_0_b2z_aux (pending m)) as Hb.
      unfold wg_Done; simpl.
      destruct (w - 1 <? 0) eqn:E; [apply Z.ltb_lt in E; lia|].
      intros H. assert (s' = set_phase k Exited (set_wg (w - 1)
          {| main := m; i := j; wg := w; gate := {| size := sz; cur := cu |};
             ctx_done := c; goroutines := l |})) as -> by (destruct m; congruence).
      specialize (Hal eq_refl). simpl in Hal.
      constructor; simpl; rewrite ?(count_insert _ _ _ _ _ Hk); simpl;
        try lia; try assumption. intros E'. destruct m; discriminate.
    + destruct m; discriminate.
  - (* CtxDone *)
    unfold ctx_step; simpl. intros H.
    assert (c = false /\ s' = {| main := m; i := j; wg := w;
              gate := {| size := sz; cur := cu |}; ctx_done := true;
              goroutines := l |}) as [-> ->]
      by (destruct m, c; try discriminate; split; unfold set_ctx_done in H;
          simpl in H; congruence).
    constructor; simpl; auto.
Qed.

Lemma gate_inv_run (d : dispatcher) (M : Z) (sched : list action) (s s' : state) :
  gate_inv d s -> run M sched s = Some s' -> gate_inv d s'.
Proof.
  revert s. induction sched as [|a sched IH]; simpl; intros s Hs.
  - intros [= <-]. exact Hs.
  - destruct (exec M a s) as [s1|] eqn:E; [|discriminate].
    apply IH. eapply gate_inv_exec; eassumption.
Qed.

(** Under the invariant a step of [exec] is a step in which nothing
    panics. *)
Lemma exec_step (d : dispatcher) (M : Z) (a : action) (s s' : state) :
  gate_inv d s -> exec M a s = Some s' -> step M a s s'.
Proof.
  intros [Hsz Hcur Hle Hwg Hrun Hdone].
  pose proof (count_nonneg alive (goroutines s)) as Hna.
  pose proof (count_nonneg holding (goroutines s)) as Hnh.
  pose proof (Zle_0_b2z_aux (at_go (main s))) as Hb1.
  pose proof (Zle_0_b2z_aux (pending (main s))) as Hb2.
  destruct a as [| |k|]; simpl.
  - unfold main_step. destruct (main s) eqn:Hm; try discriminate.
    + destruct ((i s <? M) || (M =? 0)) eqn:E; intros [= <-].
      * apply step_enter; assumption.
      * apply step_leave; assumption.
    + destruct (Acquire (gate s)) as [g|] eqn:E; [|discriminate].
      intros [= <-]. apply step_acquire; assumption.
    + intros [= <-]. apply step_go; assumption.
    + destruct (wg s =? 0) eqn:E; [|discriminate]. apply Z.eqb_eq in E.
      intros [= <-]. apply step_return; assumption.
  - unfold acquire_err_step. destruct (main s) eqn:Hm; try discriminate.
    destruct (ctx_done s) eqn:Hc; [|discriminate].
    simpl in Hb2, Hwg. unfold wg_Done.
    destruct (wg s - 1 <? 0) eqn:E; [apply Z.ltb_lt in E; lia|].
    intros [= <-]. apply step_break; try assumption. lia.
  - unfold worker_step.
    destruct (goroutines s !! k) as [p|] eqn:Hk;
      [|destruct (main s); discriminate].
    assert (Hal : alive p = true -> returned s = false).
    { intros Hp. destruct (returned s) eqn:Hr; [|reflexivity].
      pose proof (count_lookup alive _ k p Hk Hp). specialize (Hdone eq_refl). lia. }
    destruct p.
    + intros H. assert (s' = set_phase k InCallback s) as ->
        by (destruct (main s); congruence).
      apply step_call; auto.
    + intros H. assert (s' = set_phase k Deferred s) as ->
        by (destruct (main s); congruence).
      apply step_back; auto.
    + pose proof (count_lookup holding _ k _ Hk eq_refl) as H1.
      destruct (Release (gate s)) as [g|] eqn:E.
      * intros H. assert (s' = set_phase k Released (set_gate g s)) as ->
          by (destruct (main s); congruence).
        apply step_release; auto.
      * unfold Release in E.
        destruct (cur (gate s) - 1 <? 0) eqn:E'; [|discriminate].
        apply Z.ltb_lt in E'. lia.
    + pose proof (count_lookup alive _ k _ Hk eq_refl) as H1.
      unfold wg_Done.
      destruct (wg s - 1 <? 0) eqn:E; [apply Z.ltb_lt in E; lia|].
      intros H. assert (s' = set_phase k Exited (set_wg (wg s - 1) s)) as ->
        by (destruct (main s); congruence).
      apply step_exit; auto. lia.
    + destruct (main s); discriminate.
  - unfold ctx_step. intros H.
    assert (ctx_done s = false /\ s' = set_ctx_done s) as [Hc ->]
      by (destruct (main s), (ctx_done s); try discriminate; split; congruence).
    apply step_ctx; assumption.
Qed.

Lemma validate_None (d : dispatcher) (M : Z) (cb : func) :
  validate d M cb = None <-> 1 <= M /\ numWorker d <= M /\ cb <> nil_func.
Proof.
  unfold validate.
  destruct (M <? 1) eqn:E1; [apply Z.ltb_lt in E1 | apply Z.ltb_ge in E1].
  { split; [discriminate | lia]. }
  destruct (M <? numWorker d) eqn:E2; [apply Z.ltb_lt in E2 | apply Z.ltb_ge in E2].
  { split; [discriminate | lia]. }
  destruct cb; split; try discriminate; try tauto.
  intros _. repeat split; try lia. discriminate.
Qed.

Lemma loop_inv_Do (d : dispatcher) (done0 : bool) (M : Z) (cb : func) :
  validate d M cb = None -> loop_inv M (Do d done0 M cb).
Proof.
  intros Hv. pose proof (proj1 (validate_None _ _ _) Hv) as (HM & _ & _).
  unfold Do. rewrite Hv.
  constructor; simpl; try reflexivity; try lia; discriminate.
Qed.

Lemma loop_inv_step (M : Z) (a : action) (s s' : state) :
  1 <= M <= GoInt.max_int ->
  loop_inv M s -> step M a s s' -> loop_inv M s'.
Proof.
  intros HM [Hlen Hle Hlt Hexit Hret] Hstep.
  unfold issued in *.
  destruct Hstep; constructor; unfold issued; simpl;
    rewrite ?len_insert; try rewrite H in *; simpl in *;
    try assumption; try discriminate; try lia; try congruence.
  (* [i++] counts the goroutine just started *)
  all: pose proof (GoInt_facts.len_nonneg (goroutines s));
    specialize (Hlt eq_refl);
    rewrite ?GoInt_facts.len_app, incr_succ by lia;
    unfold GoInt.len in *; simpl; lia.
Qed.

Lemma steps_left_step (M : Z) (a : action) (s s' : state) :
  1 <= M <= GoInt.max_int ->
  loop_inv M s -> step M a s s' -> steps_left M s' + 1 <= steps_left M s.
Proof.
  intros HM [Hlen Hle Hlt Hexit Hret] Hstep.
  unfold issued in *.
  destruct Hstep; unfold steps_left, main_left; simpl;
    try rewrite (work_left_insert _ _ _ _ H0); try rewrite H in *; simpl in *;
    try lia.
  (* the [go] statement: a new goroutine, one iteration less *)
  pose proof (GoInt_facts.len_nonneg (goroutines s)).
  specialize (Hlt eq_refl).
  rewrite work_left_app, incr_succ by lia. simpl. lia.
Qed.

Lemma steps_left_nonneg (M : Z) (s : state) :
  loop_inv M s -> 0 <= steps_left M s.
Proof.
  intros [Hlen Hle Hlt Hexit Hret].
  pose proof (work_left_nonneg (goroutines s)).
  unfold steps_left, main_left. destruct (main s), (ctx_done s); lia.
Qed.

Lemma inv_exec (d : dispatcher) (M : Z) (a : action) (s s' : state) :
  1 <= M <= GoInt.max_int ->
  inv d M s -> exec M a s = Some s' ->
  inv d M s' /\ steps_left M s' + 1 <= steps_left M s.
Proof.
  intros HM [Hg Hl] He. pose proof (exec_step _ _ _ _ _ Hg He) as Hs.
  split; [split|].
  - eapply gate_inv_exec; eassumption.
  - eapply loop_inv_step; eassumption.
  - eapply steps_left_step; eassumption.
Qed.

Lemma inv_run (d : dispatcher) (M : Z) (sched : list action) (s s' : state) :
  1 <= M <= GoInt.max_int ->
  inv d M s -> run M sched s = Some s' ->
  inv d M s' /\ steps_left M s' + GoInt.len sched <= steps_left M s.
Proof.
  intros HM. revert s. unfold GoInt.len.
  induction sched as [|a sched IH]; simpl run; simpl length; intros s Hs.
  - intros [= <-]. split; [exact Hs | lia].
  - destruct (exec M a s) as [s1|] eqn:E; [|discriminate].
    destruct (inv_exec _ _ _ _ _ HM Hs E) as [H1 Hd]. intros Hr.
    destruct (IH _ H1 Hr) as [H2 Hd']. split; [exact H2 | lia].
Qed.

Lemma inv_Do (W : Z) (d : dispatcher) (done0 : bool) (M : Z) (cb : func) :
  New W = Returns d -> validate d M cb = None -> inv d M (Do d done0 M cb).
Proof.
  intros HN Hv. split; [eapply gate_inv_Do; eassumption | apply loop_inv_Do; assumption].
Qed.

(** *** What the context can and cannot do *)

Lemma program_action_ctx (M : Z) (a : action) (s s' : state) :
  program_action a = true -> exec M a s = Some s' -> ctx_done s' = ctx_done s.
Proof.
  destruct a as [| |k|]; try discriminate; intros _; simpl.
  - unfold main_step. destruct (main s); try discriminate.
    + destruct ((i s <? M) || (M =? 0)); intros [= <-]; reflexivity.
    + destruct (Acquire (gate s)); [|discriminate]. intros [= <-]; reflexivity.
    + intros [= <-]; reflexivity.
    + destruct (wg s =? 0); [|discriminate]. intros [= <-]; reflexivity.
  - unfold worker_step, wg_Done.
    destruct (main s), (goroutines s !! k) as [[]|]; try discriminate;
      try (intros [= <-]; reflexivity);
      try (destruct (Release (gate s)); intros [= <-]; reflexivity);
      try (destruct (wg s - 1 <? 0); intros [= <-]; reflexivity).
Qed.

Lemma run_never_done (M : Z) (sched : list action) (s s' : state) :
  ctx_done s = false -> ~ In CtxDone sched ->
  run M sched s = Some s' -> ctx_done s' = false.
Proof.
  revert s. induction sched as [|a sched IH]; simpl; intros s Hc Hin.
  - intros [= <-]. exact Hc.
  - destruct (exec M a s) as [s1|] eqn:E; [|discriminate].
    apply IH; [|tauto].
    destruct a as [| |k|].
    + rewrite (program_action_ctx M Main s s1); auto.
    + simpl in E. unfold acquire_err_step in E. rewrite Hc in E.
      destruct (main s); discriminate.
    + rewrite (program_action_ctx M (Worker k) s s1); auto.
    + exfalso. apply Hin. left. reflexivity.
Qed.

Lemma program_actions_never_done (sched : list action) :
  forallb program_action sched = true -> ~ In CtxDone sched.
Proof.
  induction sched as [|a sched IH]; simpl; [tauto|].
  intros H. apply andb_true_iff in H as [Ha Hs].
  intros [->|Hin]; [discriminate | exact (IH Hs Hin)].
Qed.

(** *** Progress and termination *)

(** While [Do] has not returned, the program can take a step: no run
    gets stuck. *)
Lemma progress (d : dispatcher) (M : Z) (s : state) :
  1 <= numWorker d -> gate_inv d s -> returned s = false ->
  exists a s', program_action a = true /\ exec M a s = Some s'.
Proof.
  intros HW [Hsz Hcur Hle Hwg Hrun Hdone] Hret.
  unfold returned in Hret, Hdone.
  pose proof (count_nonneg alive (goroutines s)) as Hna.
  destruct (Z.eq_dec (count alive (goroutines s)) 0) as [H0|H0].
  - (* every goroutine has exited: the main goroutine moves *)
    destruct (count_alive_zero _ H0) as (_ & _ & _ & Hh).
    exists Main. simpl. unfold main_step.
    destruct (main s) eqn:Hm; simpl in *; try discriminate; try congruence.
    + destruct ((i s <? M) || (M =? 0)); eauto.
    + unfold Acquire.
      destruct (cur (gate s) + 1 <=? size (gate s)) eqn:E; [eauto|].
      apply Z.leb_gt in E. lia.
    + eauto.
    + destruct (wg s =? 0) eqn:E; [eauto|]. apply Z.eqb_neq in E. lia.
  - (* some goroutine has a statement left *)
    destruct (alive_lookup (goroutines s)) as (k & p & Hk & Hp); [lia|].
    exists (Worker k). simpl. unfold worker_step, wg_Done. rewrite Hk.
    destruct (main s) eqn:Hm; try congruence;
      destruct p; try discriminate; eauto;
      try (destruct (Release (gate s)); eauto);
      try (destruct (wg s - 1 <? 0); eauto).
Qed.

(** Every run can be continued to the return of [Do], by the program
    alone. *)
Lemma eventually_returns (d : dispatcher) (M : Z) (n : nat) (s : state) :
  1 <= M <= GoInt.max_int -> 1 <= numWorker d ->
  steps_left M s <= Z.of_nat n -> inv d M s ->
  exists sched s',
    forallb program_action sched = true /\ run M sched s = Some s' /\
    returned s' = true.
Proof.
  intros HM HW. revert s. induction n as [|n IH]; intros s Hn Hinv;
    (destruct (returned s) eqn:Hret;
      [exists [], s; repeat split; assumption|]);
    destruct (progress d M s HW (proj1 Hinv) Hret) as (a & s1 & Ha & He);
    destruct (inv_exec _ _ _ _ _ HM Hinv He) as [H1 Hd];
    pose proof (steps_left_nonneg _ _ (proj2 H1)).
  - lia.
  - destruct (IH s1) as (sched & s' & Hp & Hr & Hret'); [lia | exact H1 |].
    exists (a :: sched), s'. simpl. rewrite He, Ha. auto.
Qed.

(** *** After the loop *)



(** *** A rejected call *)

Lemma rejected_run (d : dispatcher) (done0 : bool) (M : Z) (cb : func)
    (e : error) (sched : list action) (s : state) :
  validate d M cb = Some e ->
  run M sched (Do d done0 M cb) = Some s ->
  main s = Done (Some e) /\ goroutines s = [].
Proof.
  intros Hv.
  assert (H0 : main (Do d done0 M cb) = Done (Some e) /\
               goroutines (Do d done0 M cb) = []).
  { unfold Do. rewrite Hv. split; reflexivity. }
  revert H0. generalize (Do d done0 M cb) as s0.
  induction sched as [|a sched IH]; simpl; intros s0 [Hm Hg].
  - intros [= <-]. auto.
  - destruct (exec M a s0) as [s1|] eqn:E; [|discriminate].
    apply IH. destruct a as [| |k|]; simpl in E.
    + unfold main_step in E. rewrite Hm in E. discriminate.
    + unfold acquire_err_step in E. rewrite Hm in E. discriminate.
    + unfold worker_step in E. rewrite Hm, Hg in E. discriminate.
    + unfold ctx_step in E. rewrite Hm in E.
      destruct (ctx_done s0); [discriminate|]. injection E as <-. auto.
Qed.

(** Every error of [validate] wraps [ErrInvalidValue] and is a fresh
    value, equal to none of the context's errors. *)
Lemma validate_error (d : dispatcher) (M : Z) (cb : func) (e : error) :
  validate d M cb = Some e ->
  errors_Is e ErrInvalidValue = true /\
  error_eq_var e Canceled = false /\ error_eq_var e DeadlineExceeded = false.
Proof.
  unfold validate.
  destruct (M <? 1); [intros [= <-]; repeat split|].
  destruct (M <? numWorker d); [intros [= <-]; repeat split|].
  destruct cb; [intros [= <-]; repeat split | discriminate].
Qed.

(** The value [Do] returns is the one of [validate]: its error, or nil
    at the end of the run. *)
Lemma Do_return_value (W : Z) (d : dispatcher) (done0 : bool) (M : Z)
    (cb : func) (sched : list action) (s : state) (r : option error) :
  New W = Returns d -> M <= GoInt.max_int ->
  run M sched (Do d done0 M cb) = Some s ->
  main s = Done r -> r = validate d M cb.
Proof.
  intros HN HM Hr Hm. destruct (validate d M cb) as [e|] eqn:Hv.
  - destruct (rejected_run _ _ _ _ _ _ _ Hv Hr) as [Hm' _]. congruence.
  - assert (HM' : 1 <= M <= GoInt.max_int)
      by (apply validate_None in Hv; lia).
    destruct (inv_run d M sched _ s HM' (inv_Do _ _ done0 _ _ HN Hv) Hr)
      as [[_ Hl] _].
    exact (li_ret _ _ Hl r Hm).
Qed.

(** *** The contract of [Do] and [New] *)

(** C1.  Concurrency bound: in every state of every run of [Do] on a
    dispatcher built by [New W], whatever the schedule, the number of
    callback invocations whose body has started and not yet returned is at
    most [W]. *)
Theorem Do_concurrency_bound (W : Z) (d : dispatcher) (done0 : bool)
    (maxIter : Z) (callback : func) (sched : list action) (s : state) :
  New W = Returns d ->
  run maxIter sched (Do d done0 maxIter callback) = Some s ->
  executing s <= W.
Proof.
  intros HN Hr. destruct (New_inv _ _ HN) as (_ & Hn & _).
  destruct (gate_inv_run d maxIter sched _ s (gate_inv_Do _ _ done0 maxIter callback HN) Hr)
    as [Hsz Hcur Hle _ _ _].
  pose proof (count_mono in_callback holding (goroutines s)) as Hm.
  pose proof (Zle_0_b2z_aux (at_go (main s))).
  unfold executing.
  assert (count in_callback (goroutines s) <= count holding (goroutines s))
    by (apply Hm; intros []; simpl; congruence).
  lia.
Qed.

(** Two workers, three iterations: after a burst in which both units are
    taken and both callbacks entered, two invocations execute and the
    third iteration waits in [Acquire]. *)
Lemma Do_concurrency_bound_witness :
  New 2 = Returns {| numWorker := 2; sem := NewWeighted 2 |} /\
  exists s,
    run 3 [Main; Main; Main; Main; Main; Main; Worker 0; Worker 1; Main]
      (Do {| numWorker := 2; sem := NewWeighted 2 |} false 3 (closure "f"))
    = Some s /\
    executing s = 2 /\ main s = AtAcquire /\ exec 3 Main s = None /\
    executing s <= 2.
Proof.
  split; [reflexivity|]. eexists. split; [vm_compute; reflexivity|].
  split; [reflexivity|]. split; [reflexivity|]. split; [reflexivity|].
  apply (Do_concurrency_bound 2 {| numWorker := 2; sem := NewWeighted 2 |}
           false 3 (closure "f")
           [Main; Main; Main; Main; Main; Main; Worker 0; Worker 1; Main]);
    reflexivity.
Defined.

(** C2.  Iteration cap: with [1 <= W <= M], a non-nil callback and a
    context that never becomes done, no run of [Do] invokes the callback
    more than [M] times; when [Do] has returned, it has returned nil, the
    callback has been invoked exactly [M] times and all [M] invocations
    have returned; every run can be continued to that return and no run
    has more than [7 * M + 3] steps. *)
Theorem Do_iteration_cap (W : Z) (d : dispatcher) (M : Z) (callback : func)
    (sched : list action) (s : state) :
  New W = Returns d ->
  1 <= M <= GoInt.max_int -> W <= M -> callback <> nil_func ->
  ~ In CtxDone sched ->
  run M sched (Do d false M callback) = Some s ->
  invocations s <= M /\
  (returned s = true ->
   main s = Done None /\ invocations s = M /\ executions s = M /\
   executing s = 0) /\
  (exists sched' s',
     ~ In CtxDone sched' /\ run M sched' s = Some s' /\ returned s' = true) /\
  GoInt.len sched <= 7 * M + 3.
Proof.
  intros HN HM HW Hcb Hin Hr.
  destruct (New_inv _ _ HN) as (HW1 & Hn & _).
  assert (Hv : validate d M callback = None)
    by (apply validate_None; repeat split; try lia; assumption).
  destruct (inv_run d M sched _ s HM (inv_Do _ _ false _ _ HN Hv) Hr)
    as [[Hg Hl] Hlen].
  pose proof (run_never_done M sched (Do d false M callback) s eq_refl Hin Hr)
    as Hc.
  pose proof (steps_left_nonneg _ _ Hl) as H0.
  destruct Hl as [Hi Hle Hlt Hexit Hret].
  repeat split.
  - unfold invocations. pose proof (count_le_len entered (goroutines s)).
    unfold issued in Hi. lia.
  - unfold returned in H. destruct (main s) eqn:Hm; try discriminate.
    rewrite (Hret _ eq_refl). reflexivity.
  - destruct Hg as [_ _ _ _ _ Hdone]. specialize (Hdone H).
    destruct (count_alive_zero _ Hdone) as (He & _ & _ & _).
    unfold invocations. rewrite He. unfold issued in Hi. rewrite <- Hi.
    apply Hexit; [exact Hc|]. unfold returned in H. destruct (main s); auto.
  - destruct Hg as [_ _ _ _ _ Hdone]. specialize (Hdone H).
    destruct (count_alive_zero _ Hdone) as (_ & He & _ & _).
    unfold executions. rewrite He. unfold issued in Hi. rewrite <- Hi.
    apply Hexit; [exact Hc|]. unfold returned in H. destruct (main s); auto.
  - destruct Hg as [_ _ _ _ _ Hdone]. specialize (Hdone H).
    destruct (count_alive_zero _ Hdone) as (_ & _ & He & _). exact He.
  - destruct (eventually_returns d M (Z.to_nat (steps_left M s)) s HM)
      as (sched' & s' & Hp & Hr' & Hret');
      [lia | lia | split; [exact Hg | constructor; assumption] |].
    exists sched', s'. split; [|split; assumption].
    apply program_actions_never_done. exact Hp.
  - assert (steps_left M (Do d false M callback) = 7 * M + 3) as Hs0
      by (unfold steps_left, main_left, Do; rewrite Hv; simpl; lia).
    lia.
Qed.

(** One worker, one iteration: the run that goes through the loop once,
    lets the goroutine finish and comes back from [wg.Wait()]. *)
Lemma Do_iteration_cap_witness :
  New 1 = Returns {| numWorker := 1; sem := NewWeighted 1 |} /\
  exists s,
    run 1 [Main; Main; Main; Worker 0; Worker 0; Worker 0; Worker 0; Main; Main]
      (Do {| numWorker := 1; sem := NewWeighted 1 |} false 1 (closure "f"))
    = Some s /\
    returned s = true /\
    main s = Done None /\ invocations s = 1 /\ executions s = 1 /\
    executing s = 0.
Proof.
  split; [reflexivity|]. eexists. split; [vm_compute; reflexivity|].
  split; [reflexivity|].
  refine (proj1 (proj2
    (Do_iteration_cap 1 {| numWorker := 1; sem := NewWeighted 1 |} 1
       (closure "f")
       [Main; Main; Main; Worker 0; Worker 0; Worker 0; Worker 0; Main; Main]
       _ eq_refl _ _ _ _ eq_refl)) eq_refl).
  - unfold GoInt.max_int. lia.
  - lia.
  - discriminate.
  - simpl. intuition discriminate.
Defined.

(** C9.  Validation rejection: with [maxIter >= 1] and a worker count
    above it, [Do] has returned an error that wraps [ErrInvalidValue]
    before any step is taken, and no goroutine is ever started nor the
    callback ever invoked. *)
Theorem Do_rejects_wide_pool (W : Z) (d : dispatcher) (done0 : bool) (M : Z)
    (callback : func) (sched : list action) (s : state) :
  New W = Returns d -> 1 <= M -> M < W ->
  run M sched (Do d done0 M callback) = Some s ->
  exists err,
    main (Do d done0 M callback) = Done (Some err) /\
    errors_Is err ErrInvalidValue = true /\
    main s = Done (Some err) /\ issued s = 0 /\ invocations s = 0.
Proof.
  intros HN HM HW Hr. destruct (New_inv _ _ HN) as (_ & Hn & _).
  assert (Hv : validate d M callback =
    Some (wrapError
            "%w: maxIter: must be >= numWorker, got numWorker == %d, maxIter == %d"
            (errorVar ErrInvalidValue) [M; numWorker d])).
  { unfold validate.
    destruct (M <? 1) eqn:E1; [apply Z.ltb_lt in E1; lia|].
    destruct (M <? numWorker d) eqn:E2; [reflexivity|].
    apply Z.ltb_ge in E2. lia. }
  destruct (rejected_run _ _ _ _ _ _ _ Hv Hr) as [Hm Hg].
  eexists. split; [unfold Do; rewrite Hv; reflexivity|].
  split; [reflexivity|]. split; [exact Hm|].
  unfold issued, invocations. rewrite Hg. split; reflexivity.
Qed.

(** Five workers for three iterations. *)
Lemma Do_rejects_wide_pool_witness :
  New 5 = Returns {| numWorker := 5; sem := NewWeighted 5 |} /\
  exists err,
    main (Do {| numWorker := 5; sem := NewWeighted 5 |} false 3 (closure "f"))
    = Done (Some err) /\
    errors_Is err ErrInvalidValue = true /\
    exec 3 Main (Do {| numWorker := 5; sem := NewWeighted 5 |} false 3 (closure "f"))
    = None.
Proof.
  split; [reflexivity|].
  destruct (Do_rejects_wide_pool 5 {| numWorker := 5; sem := NewWeighted 5 |}
              false 3 (closure "f") [] _ eq_refl ltac:(lia) ltac:(lia) eq_refl)
    as (err & H0 & He & _).
  exists err. split; [exact H0|]. split; [exact He|]. reflexivity.
Defined.




(** The claim that [maxIter = 0] is accepted and runs unbounded fails: the
    call with one worker and a non-nil callback has returned the
    configuration error before any step, and the main goroutine has no
    step to take. *)
Lemma Do_zero_is_rejected :
  New 1 = Returns {| numWorker := 1; sem := NewWeighted 1 |} /\
  main (Do {| numWorker := 1; sem := NewWeighted 1 |} false 0 (closure "f"))
  = Done (Some (wrapError "%w: maxIter: must be < 1, got %d"
                  (errorVar ErrInvalidValue) [0])) /\
  exec 0 Main (Do {| numWorker := 1; sem := NewWeighted 1 |} false 0 (closure "f"))
  = None /\
  issued (Do {| numWorker := 1; sem := NewWeighted 1 |} false 0 (closure "f")) = 0.
Proof. repeat split. Qed.

(** C3, as the code has it.  A call of [Do] with [maxIter = 0], and with
    any [maxIter < 1], is rejected: [Do] has returned an error that wraps
    [ErrInvalidValue] before any step, and in no run is an iteration
    issued or the callback invoked. *)
Theorem Do_rejects_below_one (W : Z) (d : dispatcher) (done0 : bool) (M : Z)
    (callback : func) (sched : list action) (s : state) :
  New W = Returns d -> M < 1 ->
  run M sched (Do d done0 M callback) = Some s ->
  main (Do d done0 M callback)
  = Done (Some (wrapError "%w: maxIter: must be < 1, got %d"
                  (errorVar ErrInvalidValue) [M])) /\
  errors_Is (wrapError "%w: maxIter: must be < 1, got %d"
               (errorVar ErrInvalidValue) [M]) ErrInvalidValue = true /\
  main s = main (Do d done0 M callback) /\ issued s = 0 /\ invocations s = 0.
Proof.
  intros HN HM Hr.
  assert (Hv : validate d M callback =
    Some (wrapError "%w: maxIter: must be < 1, got %d"
            (errorVar ErrInvalidValue) [M])).
  { unfold validate. destruct (M <? 1) eqn:E; [reflexivity|].
    apply Z.ltb_ge in E. lia. }
  destruct (rejected_run _ _ _ _ _ _ _ Hv Hr) as [Hm Hg].
  assert (H0 : main (Do d done0 M callback) = Done (Some (wrapError
            "%w: maxIter: must be < 1, got %d" (errorVar ErrInvalidValue) [M])))
    by (unfold Do; rewrite Hv; reflexivity).
  split; [exact H0|]. split; [reflexivity|].
  split; [congruence|]. unfold issued, invocations. rewrite Hg.
  split; reflexivity.
Qed.

(** Zero iterations asked of one worker, whatever the context does. *)
Lemma Do_rejects_below_one_witness :
  New 1 = Returns {| numWorker := 1; sem := NewWeighted 1 |} /\
  0 < 1 /\
  exists s,
    run 0 [CtxDone]
      (Do {| numWorker := 1; sem := NewWeighted 1 |} false 0 (closure "f"))
    = Some s /\
    main s = Done (Some (wrapError "%w: maxIter: must be < 1, got %d"
                           (errorVar ErrInvalidValue) [0])) /\
    issued s = 0 /\ invocations s = 0.
Proof.
  split; [reflexivity|]. split; [lia|]. eexists.
  split; [vm_compute; reflexivity|].
  destruct (Do_rejects_below_one 1 {| numWorker := 1; sem := NewWeighted 1 |}
              false 0 (closure "f") [CtxDone] _ eq_refl ltac:(lia) eq_refl)
    as (_ & _ & H & Hi & Hn).
  split; [exact H|]. split; [exact Hi | exact Hn].
Defined.

(** C10.  [New] panics for every worker count below one, and for every
    other one returns a dispatcher with that count and a semaphore of
    that capacity; so a dispatcher on which [Do] can be called has at
    least one worker, and an error of [validate] is never about the
    worker count alone: it comes from [maxIter] or from a nil callback. *)
Theorem New_panics_below_one (n : Z) :
  (n < 1 ->
   New n = Panics "invalid numWorker value: must be > 1, got %d" n) /\
  (1 <= n ->
   New n = Returns {| numWorker := n; sem := NewWeighted n |}) /\
  (forall d M callback e,
     New n = Returns d -> validate d M callback = Some e ->
     1 <= numWorker d /\ (M < 1 \/ M < numWorker d \/ callback = nil_func)).
Proof.
  unfold New. destruct (n <? 1) eqn:E;
    [apply Z.ltb_lt in E | apply Z.ltb_ge in E].
  - split; [reflexivity|]. split; [lia|]. discriminate.
  - split; [lia|]. split; [reflexivity|].
    intros d M cb e [= <-] Hv. simpl. split; [exact E|].
    destruct (Z.lt_ge_cases M 1) as [H1|H1]; [auto|].
    destruct (Z.lt_ge_cases M n) as [H2|H2]; [auto|].
    destruct cb; [auto|].
    assert (validate {| numWorker := n; sem := NewWeighted n |} M (closure label)
            = None) as Hn
      by (apply validate_None; simpl; repeat split; try lia; discriminate).
    congruence.
Qed.

(** No worker panics, one worker does not. *)
Lemma New_panics_below_one_witness :
  New 0 = Panics "invalid numWorker value: must be > 1, got %d" 0 /\
  New 1 = Returns {| numWorker := 1; sem := NewWeighted 1 |}.
Proof.
  split.
  - apply (proj1 (New_panics_below_one 0)). lia.
  - apply (proj1 (proj2 (New_panics_below_one 1))). lia.
Defined.

End dispatcher_facts.

(** ** The requester *)
Module requester_facts.
Import requester GoInt_facts.

Lemma count_failed_app (l l' : list RecordT) :
  count_failed (l ++ l') = count_failed l + count_failed l'.
Proof. induction l as [|a l IH]; simpl; [reflexivity | rewrite IH; lia]. Qed.

Lemma count_failed_bounds (l : list RecordT) :
  0 <= count_failed l <= GoInt.len l.
Proof.
  unfold GoInt.len. induction l as [|a l IH]; simpl count_failed; simpl length;
    [lia | destruct (failed a); simpl Z.b2z; lia].
Qed.

(** [appendRecord] keeps the store consistent, from any consistent
    store. *)
Lemma appendRecord_fold (recs : list RecordT) (r : Requester) :
  numErr r = count_failed (records r) ->
  GoInt.len (records r ++ recs) <= GoInt.max_int ->
  records (fold_left appendRecord recs r) = records r ++ recs /\
  numErr (fold_left appendRecord recs r) = count_failed (records r ++ recs).
Proof.
  revert r. induction recs as [|rec recs IH]; intros r Hn Hlen; simpl.
  - rewrite app_nil_r. auto.
  - destruct (IH (appendRecord r rec)) as [Hr He].
    + simpl. rewrite count_failed_app. simpl. unfold failed.
      pose proof (count_failed_bounds (records r)).
      rewrite len_app in Hlen. unfold GoInt.len in Hlen at 2. simpl length in Hlen.
      destruct (Error rec); simpl; [|lia].
      rewrite incr_succ; unfold GoInt.max_int in *; lia.
    + simpl. rewrite <- app_assoc. exact Hlen.
    + simpl in Hr, He. rewrite <- app_assoc in Hr, He. simpl in Hr, He. auto.
Qed.

(** C6.  After any sequence of [appendRecord] calls on a Requester built
    by [New], [numErr] is the number of appended Records whose [Error] is
    non-nil, and [records] holds the appended Records, as many as there
    were calls. *)
Theorem appendRecord_invariant (cfg : Config) (recs : list RecordT) :
  GoInt.len recs <= GoInt.max_int ->
  numErr (fold_left appendRecord recs (New cfg)) = count_failed recs /\
  GoInt.len (records (fold_left appendRecord recs (New cfg))) = GoInt.len recs /\
  records (fold_left appendRecord recs (New cfg)) = recs.
Proof.
  intros Hlen.
  destruct (appendRecord_fold recs (New cfg)) as [Hr He];
    [reflexivity | exact Hlen |].
  simpl in Hr, He. rewrite He, Hr. auto.
Qed.

(** One attempt, which failed. *)
Lemma appendRecord_invariant_witness :
  GoInt.len [failure (errorString "x")] <= GoInt.max_int /\
  numErr (fold_left appendRecord [failure (errorString "x")]
            (New {| Method := "GET"; URL := None; Timeout := 0; Requests := 1;
                    Concurrency := 1; GlobalTimeout := 0; Interval := 0 |}))
  = 1.
Proof.
  split; [unfold GoInt.len, GoInt.max_int; simpl; lia|].
  apply (proj1 (appendRecord_invariant
    {| Method := "GET"; URL := None; Timeout := 0; Requests := 1;
       Concurrency := 1; GlobalTimeout := 0; Interval := 0 |}
    [failure (errorString "x")]
    ltac:(unfold GoInt.len, GoInt.max_int; simpl; lia))).
Defined.

(** The claim that a failed attempt sleeps before returning fails: when
    the send fails, the closure appends the failure Record and returns;
    it sleeps at no point. *)
Lemma record_failure_returns_at_once :
  snd (record {| req_method := "GET"; req_url := "http://a.b"; has_body := false |}
         1000
         {| GetBody := None; client_Do := inr (errorString "connection refused");
            ReadAll := inl []; Since := 5; tracer_events := [] |}
         (New {| Method := "GET"; URL := Some "http://a.b"; Timeout := 0;
                 Requests := 1; Concurrency := 1; GlobalTimeout := 0;
                 Interval := 1000 |}))
  = [Appended (failure (errorString "connection refused"))] /\
  ~ In (Slept 1000)
      (snd (record
         {| req_method := "GET"; req_url := "http://a.b"; has_body := false |}
         1000
         {| GetBody := None; client_Do := inr (errorString "connection refused");
            ReadAll := inl []; Since := 5; tracer_events := [] |}
         (New {| Method := "GET"; URL := Some "http://a.b"; Timeout := 0;
                 Requests := 1; Concurrency := 1; GlobalTimeout := 0;
                 Interval := 1000 |}))).
Proof. split; [reflexivity|]. simpl. intuition discriminate. Qed.

(** C8, as the code has it.  Every invocation of the closure appends
    exactly one Record, before anything else it does that can be seen.
    When the clone, the send and the read of the body all succeed, the
    Record has no error and the closure then prints the state and sleeps
    [interval] before it returns (the body is closed on the way out).
    In every other case the Record carries the error and the closure
    returns without sleeping. *)
Theorem record_appends_then_sleeps_on_success (req : HttpRequest)
    (interval : Duration) (a : Attempt) (r : Requester) :
  exists rec,
    fst (record req interval a r) = appendRecord r rec /\
    match cloneRequest a req, client_Do a, ReadAll a with
    | inl _, inl resp, inl body =>
        Error rec = None /\ Code rec = StatusCode resp /\
        Bytes rec = GoInt.len body /\ Time rec = Since a /\
        snd (record req interval a r)
        = [Appended rec; Printed; Slept interval; BodyClosed]
    | inl _, inl _, inr err =>
        Error rec = Some err /\
        snd (record req interval a r) = [Appended rec; BodyClosed]
    | inl _, inr err, _ =>
        Error rec = Some err /\
        snd (record req interval a r) = [Appended rec]
    | inr _, _, _ =>
        Error rec = Some (errorVar ErrRequestBody) /\
        snd (record req interval a r) = [Appended rec]
    end.
Proof.
  unfold record.
  destruct (cloneRequest a req) as [c|e0];
    [|eexists; split; [reflexivity|]; split; reflexivity].
  destruct (client_Do a) as [resp|e1];
    [|eexists; split; [reflexivity|]; split; reflexivity].
  destruct (ReadAll a) as [body|e2];
    eexists; (split; [reflexivity|]); repeat split.
Qed.

(** The claim that [Run] returns an error only for a failed pre-flight
    or a rejected dispatch fails: with a nil URL in the configuration,
    [Run] returns an error that wraps [ErrRequest], which is neither of
    the two, and does so before the pre-flight request. *)
Lemma Run_request_error :
  Run ([], 0) (fun _ recs n => (recs, n))
    {| ParseRequestURI := fun _ => true;
       NewRequest := fun m u =>
         inl {| req_method := m; req_url := u; has_body := false |};
       ping_Do := None; attempts := [] |}
    (New {| Method := "GET"; URL := None; Timeout := 0; Requests := 1;
            Concurrency := 1; GlobalTimeout := 0; Interval := 0 |})
  = Returns
      (New {| Method := "GET"; URL := None; Timeout := 0; Requests := 1;
              Concurrency := 1; GlobalTimeout := 0; Interval := 0 |},
       (([], 0),
        Some (wrapCause "%w: %s" (errorVar ErrRequest) (errorString "empty url"))))
  /\
  errors_Is (wrapCause "%w: %s" (errorVar ErrRequest) (errorString "empty url"))
    ErrConnection = false /\
  errors_Is (wrapCause "%w: %s" (errorVar ErrRequest) (errorString "empty url"))
    ErrInvalidValue = false.
Proof. repeat split. Qed.

(** C5, as the code has it.  [Run] returns a non-nil error in three
    cases only: the request cannot be built from the configuration (the
    error wraps [ErrRequest]), the pre-flight request fails (it wraps
    [ErrConnection]), or the dispatcher rejects the configuration (it is
    the error of [validate], which wraps [ErrInvalidValue]); the Report
    is then the zero Report and no Record has been appended.  It panics
    only when the worker count is below one.  In every other case,
    whatever the attempts gave, it returns the Report made from the
    records and the error count together with a nil error. *)
Theorem Run_error_causes {Report : Type} (zeroReport : Report)
    (makeReport : Config -> list RecordT -> Z -> Report)
    (w : World) (r : Requester) :
  match Run zeroReport makeReport w r with
  | Panics _ _ =>
      (exists req, HTTPRequest w (config r) = inl req) /\ ping_Do w = None /\
      Concurrency (config r) < 1
  | Returns (r', (rep, Some e)) =>
      rep = zeroReport /\ records r' = records r /\
      ((errors_Is e ErrRequest = true /\
        exists err, HTTPRequest w (config r) = inr err)
       \/ (errors_Is e ErrConnection = true /\
           (exists req, HTTPRequest w (config r) = inl req) /\
           ping_Do w <> None)
       \/ (errors_Is e ErrInvalidValue = true /\
           (exists req, HTTPRequest w (config r) = inl req) /\
           ping_Do w = None /\
           exists d, dispatcher.New (Concurrency (config r)) = Returns d /\
                     dispatcher.validate d (Requests (config r)) (closure "record")
                     = Some e))
  | Returns (r', (rep, None)) =>
      (exists req, HTTPRequest w (config r) = inl req /\
         records r' = records (dispatch req (Interval (config r)) (attempts w) r)) /\
      ping_Do w = None /\
      (exists d, dispatcher.New (Concurrency (config r)) = Returns d /\
                 dispatcher.validate d (Requests (config r)) (closure "record")
                 = None) /\
      done r' = true /\
      rep = makeReport (config r') (records r') (numErr r')
  end.
Proof.
  unfold Run, ping.
  destruct (HTTPRequest w (config r)) as [req|err] eqn:Hreq.
  2:{ split; [reflexivity|]. split; [reflexivity|]. left. split; [reflexivity|].
      exists err. reflexivity. }
  destruct (ping_Do w) as [err|] eqn:Hping.
  { split; [reflexivity|]. split; [reflexivity|]. right. left.
    split; [reflexivity|]. split; [exists req; reflexivity | discriminate]. }
  destruct (dispatcher.New (Concurrency (config r))) as [d|f n] eqn:HN.
  2:{ split; [exists req; reflexivity|]. split; [reflexivity|].
      unfold dispatcher.New in HN.
      destruct (Concurrency (config r) <? 1) eqn:E; [|discriminate].
      apply Z.ltb_lt in E. exact E. }
  destruct (dispatcher.validate d (Requests (config r)) (closure "record"))
    as [e|] eqn:Hv.
  - destruct (dispatcher_facts.validate_error _ _ _ _ Hv) as (Hi & Hc & Hd).
    rewrite Hc, Hd. simpl.
    split; [reflexivity|]. split; [reflexivity|]. right. right.
    split; [exact Hi|]. split; [exists req; reflexivity|].
    split; [reflexivity|]. exists d. split; [reflexivity | exact Hv].
  - simpl. split; [exists req; split; reflexivity|]. split; [reflexivity|].
    split; [exists d; split; [reflexivity | exact Hv]|]. split; reflexivity.
Qed.

End requester_facts.

(** ** The report of package request *)
Module request_facts.
Import request GoInt_facts.

Lemma Collect_fold (chan : list RecordT) (rep : Report) :
  0 <= Fail rep ->
  Fail rep + GoInt.len chan <= GoInt.max_int ->
  Records (fold_left Collect_body chan rep)
  = Records rep ++ requester.successes chan /\
  Success (fold_left Collect_body chan rep) = Success rep /\
  Fail (fold_left Collect_body chan rep)
  = Fail rep + requester.count_failed chan.
Proof.
  revert rep. unfold GoInt.len.
  induction chan as [|rec chan IH]; intros rep H0 Hlen; simpl.
  - rewrite app_nil_r. repeat split; lia.
  - simpl length in Hlen. unfold Collect_body at 2 4 6. unfold requester.failed.
    destruct (requester.Error rec) as [e|]; simpl.
    + destruct (IH {| Records := Records rep;
                      Length := GoInt.incr (Length rep);
                      Success := Success rep;
                      Fail := GoInt.incr (Fail rep) |}) as (Hr & Hs & Hf);
        simpl; rewrite ?incr_succ by (unfold GoInt.max_int in *; lia); try lia.
      rewrite Hr, Hs, Hf. simpl.
      rewrite incr_succ by (unfold GoInt.max_int in *; lia).
      repeat split; lia.
    + destruct (IH {| Records := Records rep ++ [rec];
                      Length := GoInt.incr (Length rep);
                      Success := Success rep;
                      Fail := Fail rep |}) as (Hr & Hs & Hf);
        simpl; try lia.
      rewrite Hr, Hs, Hf. simpl. rewrite <- app_assoc. simpl.
      repeat split; lia.
Qed.

(** What [Collect] computes: the Records without error, their number as
    [Length], the number of Records with an error as [Fail], and a
    [Success] that is never assigned. *)
Lemma Collect_computes (chan : list RecordT) :
  GoInt.len chan <= GoInt.max_int ->
  Collect chan
  = {| Records := requester.successes chan;
       Length := GoInt.len (requester.successes chan);
       Success := 0;
       Fail := requester.count_failed chan |}.
Proof.
  intros Hlen. unfold Collect.
  destruct (Collect_fold chan
              {| Records := []; Length := 0; Success := 0; Fail := 0 |})
    as (Hr & Hs & Hf); simpl; try lia.
  rewrite Hr, Hs, Hf. reflexivity.
Qed.

(** C7 at 100 attempts of which 2 failed: [Collect] reports a length of
    98 and 0 successes with 2 failures, where the claim has a total of
    100 made of 98 successes and 2 failures. *)
Theorem Collect_hundred_attempts :
  Length (Collect
    (repeat {| requester.Time := 7; requester.Code := 200; requester.Bytes := 3;
               requester.Error := None; requester.Events := [] |} 98
     ++ repeat (requester.failure (errorString "timeout")) 2)) = 98 /\
  Success (Collect
    (repeat {| requester.Time := 7; requester.Code := 200; requester.Bytes := 3;
               requester.Error := None; requester.Events := [] |} 98
     ++ repeat (requester.failure (errorString "timeout")) 2)) = 0 /\
  Fail (Collect
    (repeat {| requester.Time := 7; requester.Code := 200; requester.Bytes := 3;
               requester.Error := None; requester.Events := [] |} 98
     ++ repeat (requester.failure (errorString "timeout")) 2)) = 2 /\
  GoInt.len
    (repeat {| requester.Time := 7; requester.Code := 200; requester.Bytes := 3;
               requester.Error := None; requester.Events := [] |} 98
     ++ repeat (requester.failure (errorString "timeout")) 2) = 100.
Proof. vm_compute. repeat split. Qed.

End request_facts.

(** ** More on the dispatcher *)
Module dispatcher_more.
Import semaphore dispatcher GoInt_facts dispatcher_facts.

(** Once the process is ended nothing runs. *)
Lemma ended_is_stuck (M : Z) (a : dispatcher.action) (s : dispatcher.state) :
  main s = Panicked -> dispatcher.exec M a s = None.
Proof.
  intros Hm. destruct a as [| |k|]; simpl.
  - unfold main_step. rewrite Hm. reflexivity.
  - unfold acquire_err_step. rewrite Hm. reflexivity.
  - unfold worker_step. rewrite Hm. reflexivity.
  - unfold ctx_step. rewrite Hm. reflexivity.
Qed.

(** What the invariant of the semaphore says of the observations. *)
Lemma gate_inv_bounds (d : dispatcher) (t : dispatcher.state) :
  gate_inv d t ->
  executing t <= numWorker d /\ 0 <= cur (gate t) <= numWorker d /\ 0 <= wg t.
Proof.
  intros [Hsz Hcur Hle Hwg _ _].
  pose proof (count_mono in_callback holding (goroutines t)) as Hm.
  pose proof (count_nonneg holding (goroutines t)).
  pose proof (count_nonneg alive (goroutines t)).
  pose proof (Zle_0_b2z_aux (at_go (main t))).
  pose proof (Zle_0_b2z_aux (pending (main t))).
  assert (count in_callback (goroutines t) <= count holding (goroutines t))
    by (apply Hm; intros []; simpl; congruence).
  unfold executing. lia.
Qed.

(** X1.  The bookkeeping of [Do] never panics.  For a callback that
    returns, in no run of [Do] on a dispatcher built by [New], whatever
    [maxIter], the context and the schedule, does [d.sem.Release(1)]
    release more than is held or [wg.Done()] bring the counter of the
    WaitGroup below zero, the two panics the body of [Do] could raise by
    itself; the weight held stays between 0 and the worker count, the
    size of the semaphore stays the worker count and the counter of the
    WaitGroup is never negative.  (A panic raised inside the callback
    itself is no step of [worker_step].) *)
Theorem Do_bookkeeping_never_panics (W : Z) (d : dispatcher) (done0 : bool)
    (maxIter : Z) (callback : func) (sched : list action) (s : state) :
  New W = Returns d ->
  run maxIter sched (Do d done0 maxIter callback) = Some s ->
  main s <> Panicked /\ 0 <= cur (gate s) <= W /\ size (gate s) = W /\
  0 <= wg s.
Proof.
  intros HN Hr. destruct (New_inv _ _ HN) as (_ & Hn & _).
  destruct (gate_inv_run d maxIter sched _ s
              (gate_inv_Do _ _ done0 maxIter callback HN) Hr)
    as [Hsz Hcur Hle Hwg Hrun _].
  pose proof (count_nonneg holding (goroutines s)).
  pose proof (count_nonneg alive (goroutines s)).
  pose proof (Zle_0_b2z_aux (at_go (main s))).
  pose proof (Zle_0_b2z_aux (pending (main s))).
  repeat split; try assumption; lia.
Qed.

(** One worker, one iteration, up to the release of the unit. *)
Lemma Do_bookkeeping_never_panics_witness :
  New 1 = Returns {| numWorker := 1; sem := NewWeighted 1 |} /\
  exists s,
    run 1 [Main; Main; Main; Worker 0; Worker 0; Worker 0]
      (Do {| numWorker := 1; sem := NewWeighted 1 |} false 1 (closure "f"))
    = Some s /\
    main s <> Panicked /\ 0 <= cur (gate s) <= 1 /\ size (gate s) = 1 /\
    0 <= wg s.
Proof.
  split; [reflexivity|]. eexists. split; [vm_compute; reflexivity|].
  apply (Do_bookkeeping_never_panics 1 {| numWorker := 1; sem := NewWeighted 1 |}
           false 1 (closure "f") [Main; Main; Main; Worker 0; Worker 0; Worker 0]);
    reflexivity.
Defined.

(** X2.  Whenever [Do] has returned, with or without cancellation, every
    goroutine it started has run the callback to its end and exited, the
    WaitGroup is back to zero and the semaphore is back to the state
    [New] gave it: the dispatcher can be used for another call. *)
Theorem Do_returns_drained (W : Z) (d : dispatcher) (done0 : bool) (maxIter : Z)
    (callback : func) (sched : list action) (s : state) :
  New W = Returns d ->
  run maxIter sched (Do d done0 maxIter callback) = Some s ->
  returned s = true ->
  executions s = issued s /\ invocations s = issued s /\ executing s = 0 /\
  wg s = 0 /\ gate s = sem d.
Proof.
  intros HN Hr Hret. destruct (New_inv _ _ HN) as (_ & Hn & Hs).
  destruct (gate_inv_run d maxIter sched _ s
              (gate_inv_Do _ _ done0 maxIter callback HN) Hr)
    as [Hsz Hcur Hle Hwg Hrun Hdone].
  specialize (Hdone Hret).
  destruct (count_alive_zero _ Hdone) as (He & Hc & Hi & Hh).
  unfold returned in Hret.
  destruct (main s) eqn:Hm; try discriminate. simpl in Hcur, Hwg.
  unfold executions, invocations, executing, issued.
  repeat split; try assumption; try lia.
  rewrite Hs. destruct (gate s) as [sz cu]. simpl in *.
  unfold NewWeighted. f_equal; lia.
Qed.

(** A run of two iterations that the deadline cuts after the first. *)
Lemma Do_returns_drained_witness :
  New 1 = Returns {| numWorker := 1; sem := NewWeighted 1 |} /\
  exists s,
    run 2 [Main; Main; Main; Worker 0; Main; CtxDone; AcquireErr;
           Worker 0; Worker 0; Worker 0; Main]
      (Do {| numWorker := 1; sem := NewWeighted 1 |} false 2 (closure "f"))
    = Some s /\
    returned s = true /\ issued s = 1 /\
    executions s = issued s /\ invocations s = issued s /\ executing s = 0 /\
    wg s = 0 /\ gate s = NewWeighted 1.
Proof.
  split; [reflexivity|]. eexists. split; [vm_compute; reflexivity|].
  split; [reflexivity|]. split; [reflexivity|].
  apply (Do_returns_drained 1 {| numWorker := 1; sem := NewWeighted 1 |} false 2
           (closure "f")
           [Main; Main; Main; Worker 0; Main; CtxDone; AcquireErr;
            Worker 0; Worker 0; Worker 0; Main]);
    reflexivity.
Defined.

(** X3.  A validated call of [Do] terminates whatever the context does:
    no run has more than [7 * maxIter + 3] steps or issues more than
    [maxIter] iterations, and from every state it reaches the program
    alone can bring [Do] to return nil. *)
Theorem Do_terminates (W : Z) (d : dispatcher) (done0 : bool) (maxIter : Z)
    (callback : func) (sched : list action) (s : state) :
  New W = Returns d -> validate d maxIter callback = None ->
  maxIter <= GoInt.max_int ->
  run maxIter sched (Do d done0 maxIter callback) = Some s ->
  GoInt.len sched <= 7 * maxIter + 3 /\
  issued s <= maxIter /\
  exists sched' s',
    forallb program_action sched' = true /\
    run maxIter sched' s = Some s' /\ main s' = Done None.
Proof.
  intros HN Hv HM Hr. destruct (New_inv _ _ HN) as (HW1 & Hn & _).
  assert (HM' : 1 <= maxIter <= GoInt.max_int)
    by (apply validate_None in Hv; lia).
  destruct (inv_run d maxIter sched _ s HM' (inv_Do _ _ done0 _ _ HN Hv) Hr)
    as [Hinv Hlen].
  pose proof (steps_left_nonneg _ _ (proj2 Hinv)) as H0.
  split; [|split].
  - assert (steps_left maxIter (Do d done0 maxIter callback) <= 7 * maxIter + 3)
      by (unfold steps_left, main_left, Do; rewrite Hv; simpl;
          destruct done0; lia).
    lia.
  - destruct Hinv as [_ [Hi Hle _ _ _]]. lia.
  - destruct (eventually_returns d maxIter (Z.to_nat (steps_left maxIter s)) s HM')
      as (sched' & s' & Hp & Hr' & Hret'); [lia | lia | exact Hinv |].
    exists sched', s'. split; [exact Hp|]. split; [exact Hr'|].
    destruct (inv_run d maxIter sched' _ s' HM' Hinv Hr') as [Hinv' _].
    unfold returned in Hret'. destruct (main s') eqn:Hm; try discriminate.
    rewrite (li_ret _ _ (proj2 Hinv') _ Hm). reflexivity.
Qed.

(** Two iterations of which the second is given up at the deadline. *)
Lemma Do_terminates_witness :
  New 1 = Returns {| numWorker := 1; sem := NewWeighted 1 |} /\
  GoInt.len [Main; Main; Main; Worker 0; Main; CtxDone; AcquireErr]
  <= 7 * 2 + 3.
Proof.
  split; [reflexivity|].
  apply (Do_terminates 1 {| numWorker := 1; sem := NewWeighted 1 |} false 2
           (closure "f") [Main; Main; Main; Worker 0; Main; CtxDone; AcquireErr]
           _ eq_refl eq_refl ltac:(unfold GoInt.max_int; lia) eq_refl).
Defined.

End dispatcher_more.

(** ** The dispatcher and a callback that panics *)
Module unwinding_facts.
Import semaphore dispatcher GoInt_facts dispatcher_facts dispatcher_more.

(** For the semaphore and the WaitGroup a callback that panics is a
    callback that returns: the deferred function comes next. *)
Lemma panic_as_return (M : Z) (k : nat) (s : dispatcher.state) :
  main s <> Panicked -> goroutines s !! k = Some InCallback ->
  dispatcher.exec M (Worker k) s = Some (set_phase k Deferred s).
Proof.
  intros Hm Hk. simpl. unfold worker_step. rewrite Hk.
  destruct (main s); try reflexivity. congruence.
Qed.

Lemma is_panicking_In (k : nat) (s : unwinding.state) :
  unwinding.is_panicking k s = true -> In k (unwinding.panicking s).
Proof.
  unfold unwinding.is_panicking. intros H.
  apply existsb_exists in H as (x & Hx & He).
  apply Nat.eqb_eq in He. subst. exact Hx.
Qed.

Lemma unwinding_inv_exec (d : dispatcher) (M : Z) (a : unwinding.action)
    (s s' : unwinding.state) :
  unwinding.inv d s -> unwinding.exec M a s = Some s' -> unwinding.inv d s'.
Proof.
  intros [Hg | (t & k & Hg & Hp & Hin & Hk)] He.
  - destruct a as [a | k | k]; simpl in He.
    + destruct (dispatcher.exec M a (unwinding.program s)) as [t|] eqn:E;
        [|discriminate].
      injection He as <-. left. simpl. eapply gate_inv_exec; eassumption.
    + destruct (goroutines (unwinding.program s) !! k) as [[]|] eqn:Hk;
        try (destruct (main (unwinding.program s)); discriminate).
      assert (Hs' : s' = {| unwinding.program :=
                              set_phase k Deferred (unwinding.program s);
                            unwinding.panicking := k :: unwinding.panicking s |})
        by (destruct (main (unwinding.program s)); congruence).
      subst s'. left. simpl.
      apply (gate_inv_exec d M (Worker k) (unwinding.program s)); [exact Hg|].
      apply panic_as_return; [exact (gi_run _ _ Hg) | exact Hk].
    + destruct (goroutines (unwinding.program s) !! k) as [[]|] eqn:Hk;
        try (destruct (main (unwinding.program s)); discriminate).
      destruct (unwinding.is_panicking k s) eqn:Hp;
        [|destruct (main (unwinding.program s)); discriminate].
      assert (Hs' : s' = {| unwinding.program :=
                              set_main Panicked (unwinding.program s);
                            unwinding.panicking := unwinding.panicking s |})
        by (destruct (main (unwinding.program s)); congruence).
      subst s'. right. exists (unwinding.program s), k. simpl.
      split; [exact Hg|]. split; [reflexivity|].
      split; [apply is_panicking_In; exact Hp | exact Hk].
  - exfalso. destruct a as [a | j | j]; simpl in He; rewrite Hp in He.
    + rewrite ended_is_stuck in He by reflexivity. discriminate.
    + simpl in He. discriminate.
    + simpl in He. discriminate.
Qed.

Lemma unwinding_inv_run (d : dispatcher) (M : Z) (sched : list unwinding.action)
    (s s' : unwinding.state) :
  unwinding.inv d s -> unwinding.run M sched s = Some s' -> unwinding.inv d s'.
Proof.
  revert s. induction sched as [|a sched IH]; simpl; intros s Hi.
  - intros [= <-]. exact Hi.
  - destruct (unwinding.exec M a s) as [s1|] eqn:E; [|discriminate].
    apply IH. eapply unwinding_inv_exec; eassumption.
Qed.

(** X21.  [Do] with callbacks that may panic.  In every run on a
    dispatcher built by [New], whatever [maxIter], the context, the
    schedule and the callbacks that panic: at most [W] invocations of the
    callback are in progress, the weight held stays between 0 and [W] and
    the counter of the WaitGroup is never negative, so that neither
    [Release] nor [wg.Done()] panics, also in the deferred function of a
    goroutine that unwinds; the process is ended only for a goroutine
    whose callback panicked, after that goroutine's deferred function has
    given its unit back and called [wg.Done()]. *)
Theorem Do_dies_only_by_callback (W : Z) (d : dispatcher) (done0 : bool)
    (maxIter : Z) (callback : func) (sched : list unwinding.action)
    (s : unwinding.state) :
  New W = Returns d ->
  unwinding.run maxIter sched (unwinding.Do d done0 maxIter callback) = Some s ->
  executing (unwinding.program s) <= W /\
  0 <= cur (gate (unwinding.program s)) <= W /\
  0 <= wg (unwinding.program s) /\
  (main (unwinding.program s) = Panicked ->
   exists k,
     In k (unwinding.panicking s) /\
     goroutines (unwinding.program s) !! k = Some Exited) /\
  (unwinding.panicking s = [] -> main (unwinding.program s) <> Panicked).
Proof.
  intros HN Hr. destruct (New_inv _ _ HN) as (_ & Hn & _).
  assert (Hi : unwinding.inv d s).
  { apply (unwinding_inv_run d maxIter sched
             (unwinding.Do d done0 maxIter callback) s); [|exact Hr].
    left. simpl. apply gate_inv_Do with (W := W). exact HN. }
  assert (Hdie : main (unwinding.program s) = Panicked ->
            exists k,
              In k (unwinding.panicking s) /\
              goroutines (unwinding.program s) !! k = Some Exited).
  { intros Hm. destruct Hi as [Hg | (t & k & Hg & Hp & Hin & Hk)].
    - destruct (gi_run _ _ Hg Hm).
    - exists k. split; [exact Hin|]. rewrite Hp. exact Hk. }
  assert (Hb : executing (unwinding.program s) <= W /\
               0 <= cur (gate (unwinding.program s)) <= W /\
               0 <= wg (unwinding.program s)).
  { rewrite <- Hn.
    destruct Hi as [Hg | (t & k & Hg & Hp & _)].
    - apply gate_inv_bounds. exact Hg.
    - rewrite Hp. apply (gate_inv_bounds d t Hg). }
  destruct Hb as (H1 & H2 & H3).
  split; [exact H1|]. split; [exact H2|]. split; [exact H3|].
  split; [exact Hdie|].
  intros He Hm. destruct (Hdie Hm) as (k & Hin & _).
  rewrite He in Hin. destruct Hin.
Qed.

(** One worker, one iteration, and a callback that panics: the deferred
    function gives the unit back and calls [wg.Done()], then the process
    is gone. *)
Lemma Do_dies_only_by_callback_witness :
  New 1 = Returns {| numWorker := 1; sem := NewWeighted 1 |} /\
  exists s,
    unwinding.run 1
      [unwinding.Step Main; unwinding.Step Main; unwinding.Step Main;
       unwinding.Step (Worker 0); unwinding.CallbackPanics 0;
       unwinding.Step (Worker 0); unwinding.Step (Worker 0);
       unwinding.Crash 0]
      (unwinding.Do {| numWorker := 1; sem := NewWeighted 1 |} false 1
         (closure "f"))
    = Some s /\
    main (unwinding.program s) = Panicked /\
    unwinding.panicking s = [0%nat] /\
    cur (gate (unwinding.program s)) = 0 /\ wg (unwinding.program s) = 0 /\
    executing (unwinding.program s) <= 1.
Proof.
  split; [reflexivity|]. eexists. split; [vm_compute; reflexivity|].
  split; [reflexivity|]. split; [reflexivity|]. split; [reflexivity|].
  split; [reflexivity|].
  apply (Do_dies_only_by_callback 1 {| numWorker := 1; sem := NewWeighted 1 |}
           false 1 (closure "f")
           [unwinding.Step Main; unwinding.Step Main; unwinding.Step Main;
            unwinding.Step (Worker 0); unwinding.CallbackPanics 0;
            unwinding.Step (Worker 0); unwinding.Step (Worker 0);
            unwinding.Crash 0]);
    reflexivity.
Defined.

End unwinding_facts.

(** ** The dispatcher without validation *)
Module semimpl_facts.
Import semaphore dispatcher GoInt_facts dispatcher_facts dispatcher_more.

(** With a non-nil callback and an error of the context's, the steps are
    those of the dispatcher. *)
Lemma exec_eq (ctx_err : error) (cb : func) (M : Z) (a : action) (s : state) :
  ctx_err = errorVar Canceled \/ ctx_err = errorVar DeadlineExceeded ->
  cb <> nil_func ->
  semimpl.exec ctx_err cb M a s = dispatcher.exec M a s.
Proof.
  intros Hc Hcb. destruct a as [| |k|]; try reflexivity.
  - unfold semimpl.exec.
    destruct (dispatcher.exec M AcquireErr s); [|reflexivity].
    destruct Hc as [-> | ->]; reflexivity.
  - unfold semimpl.exec. destruct cb; [congruence | reflexivity].
Qed.

Lemma run_eq (ctx_err : error) (cb : func) (M : Z) (sched : list action)
    (s : state) :
  ctx_err = errorVar Canceled \/ ctx_err = errorVar DeadlineExceeded ->
  cb <> nil_func ->
  semimpl.run ctx_err cb M sched s = dispatcher.run M sched s.
Proof.
  intros Hc Hcb. revert s. induction sched as [|a sched IH]; intros s; simpl.
  - reflexivity.
  - rewrite (exec_eq _ _ _ _ _ Hc Hcb).
    destruct (dispatcher.exec M a s); [apply IH | reflexivity].
Qed.

Lemma gate_inv_semimpl (done0 : bool) (W M : Z) :
  0 <= W ->
  gate_inv {| numWorker := W; sem := NewWeighted W |} (semimpl.Do done0 W M).
Proof. intros HW. constructor; simpl; try lia; try discriminate; reflexivity. Qed.

Lemma inv_semimpl (done0 : bool) (W M : Z) :
  0 <= W -> 0 <= M ->
  inv {| numWorker := W; sem := NewWeighted W |} M (semimpl.Do done0 W M).
Proof.
  intros HW HM. split; [apply gate_inv_semimpl; assumption|].
  constructor; simpl; try reflexivity; try lia; discriminate.
Qed.

Lemma run_app (M : Z) (l1 l2 : list action) (s : state) :
  dispatcher.run M (l1 ++ l2) s
  = match dispatcher.run M l1 s with
    | Some s1 => dispatcher.run M l2 s1
    | None => None
    end.
Proof.
  revert s. induction l1 as [|a l1 IH]; intros s; simpl; [reflexivity|].
  destruct (dispatcher.exec M a s); [apply IH | reflexivity].
Qed.

(** A step of [semimpl.Do] is a step of the dispatcher, or it ends the
    process: the call of a nil callback, or [log.Fatal] in
    [handleContextError]. *)
Lemma semimpl_exec_cases (ctx_err : error) (cb : func) (M : Z) (a : action)
    (s s' : state) :
  semimpl.exec ctx_err cb M a s = Some s' ->
  dispatcher.exec M a s = Some s' \/
  (s' = set_main Panicked s /\
   (cb = nil_func \/ semimpl.handleContextError (Some ctx_err) = true)).
Proof.
  intros He. destruct a as [| |k|]; [left; exact He | | | left; exact He].
  - unfold semimpl.exec in He.
    destruct (dispatcher.exec M AcquireErr s) as [s1|]; [|discriminate].
    destruct (semimpl.handleContextError (Some ctx_err)) eqn:E.
    + injection He as <-. right. auto.
    + left. exact He.
  - unfold semimpl.exec in He. destruct cb; [|left; exact He].
    destruct (goroutines s !! k) as [[]|] eqn:Hk; try (left; exact He).
    destruct (main s); try discriminate; injection He as <-; right; auto.
Qed.

Lemma semimpl_ended_is_stuck (ctx_err : error) (cb : func) (M : Z) (a : action)
    (s : state) :
  main s = Panicked -> semimpl.exec ctx_err cb M a s = None.
Proof.
  intros Hm. destruct (semimpl.exec ctx_err cb M a s) as [s'|] eqn:E;
    [|reflexivity].
  destruct a as [| |k|]; unfold semimpl.exec in E.
  - rewrite (ended_is_stuck M Main s Hm) in E. discriminate.
  - rewrite (ended_is_stuck M AcquireErr s Hm) in E. discriminate.
  - rewrite (ended_is_stuck M (Worker k) s Hm), Hm in E.
    destruct cb, (goroutines s !! k) as [[]|]; discriminate.
  - rewrite (ended_is_stuck M CtxDone s Hm) in E. discriminate.
Qed.

(** Along a run of [semimpl.Do] the invariant of the semaphore holds
    until the process is ended, and the process is ended only by a nil
    callback or by [log.Fatal]. *)
Lemma semimpl_bound_run (d : dispatcher) (ctx_err : error) (cb : func) (M : Z)
    (sched : list action) (s s' : state) :
  gate_inv d s ->
  semimpl.run ctx_err cb M sched s = Some s' ->
  gate_inv d s' \/
  (main s' = Panicked /\ executing s' <= numWorker d /\
   (cb = nil_func \/ semimpl.handleContextError (Some ctx_err) = true)).
Proof.
  revert s. induction sched as [|a sched IH]; simpl; intros s Hg.
  - intros [= <-]. left. exact Hg.
  - destruct (semimpl.exec ctx_err cb M a s) as [s1|] eqn:E; [|discriminate].
    destruct (semimpl_exec_cases _ _ _ _ _ _ E) as [E1 | [-> Hwhy]].
    + apply IH. eapply gate_inv_exec; eassumption.
    + destruct sched as [|b sched]; simpl.
      * intros [= <-]. right. split; [reflexivity|].
        split; [exact (proj1 (gate_inv_bounds d s Hg)) | exact Hwhy].
      * rewrite semimpl_ended_is_stuck by reflexivity. discriminate.
Qed.

(** X4.  Concurrency bound of [semimpl.Do]: with a worker count that is
    not negative, in every state of every run at most [numWorkers]
    invocations of the callback are in progress, whatever [maxIter], the
    context, the value of [ctx.Err()] and the callback, nil or not, as
    long as it returns.  The process is ended in a run only by the call
    of a nil callback or by [log.Fatal] on an error of [Acquire] that
    [handleContextError] does not take for [DeadlineExceeded] or
    [Canceled]: with a non-nil callback that returns and such an error
    of the context, [Release] and [wg.Done()] never panic. *)
Theorem semimpl_concurrency_bound (ctx_err : error) (callback : func) (done0 : bool)
    (numWorkers maxIter : Z) (sched : list action) (s : state) :
  0 <= numWorkers ->
  semimpl.run ctx_err callback maxIter sched (semimpl.Do done0 numWorkers maxIter)
  = Some s ->
  executing s <= numWorkers /\
  (main s = Panicked ->
   callback = nil_func \/ semimpl.handleContextError (Some ctx_err) = true) /\
  (callback <> nil_func ->
   ctx_err = errorVar Canceled \/ ctx_err = errorVar DeadlineExceeded ->
   main s <> Panicked).
Proof.
  intros HW Hr.
  pose proof (semimpl_bound_run _ _ _ _ _ _ _
                (gate_inv_semimpl done0 _ maxIter HW) Hr) as H.
  simpl in H.
  assert (Hdie : main s = Panicked ->
            callback = nil_func \/
            semimpl.handleContextError (Some ctx_err) = true).
  { intros Hm. destruct H as [Hg | (_ & _ & Hwhy)]; [|exact Hwhy].
    destruct (gi_run _ _ Hg Hm). }
  split; [|split; [exact Hdie|]].
  - destruct H as [Hg | (_ & Hb & _)]; [|exact Hb].
    exact (proj1 (gate_inv_bounds _ s Hg)).
  - intros Hcb Hc Hm. destruct (Hdie Hm) as [Hnil | Hfatal]; [congruence|].
    destruct Hc as [-> | ->]; discriminate.
Qed.

(** Three workers for two iterations, which [dispatcher.Do] refuses, and
    an error of the context that [handleContextError] does not know. *)
Lemma semimpl_concurrency_bound_witness :
  exists s,
    semimpl.run (errorString "odd") (closure "f") 2
      [Main; Main; Main; Main; Main; Main; Worker 0; Worker 1]
      (semimpl.Do false 3 2)
    = Some s /\
    executing s = 2 /\ executing s <= 3.
Proof.
  eexists. split; [vm_compute; reflexivity|]. split; [reflexivity|].
  apply (semimpl_concurrency_bound (errorString "odd") (closure "f") false 3 2
           [Main; Main; Main; Main; Main; Main; Worker 0; Worker 1]);
    [lia | reflexivity].
Defined.

(** X5.  Iteration cap of [semimpl.Do]: with at least one worker, a
    non-nil callback, [maxIter >= 1] and a context that never becomes
    done, the callback is never invoked more than [maxIter] times, [Do]
    has returned only after exactly [maxIter] invocations have returned,
    and every run can be continued to that return; the worker count may
    exceed [maxIter]. *)
Theorem semimpl_iteration_cap (ctx_err : error) (callback : func)
    (numWorkers maxIter : Z) (sched : list action) (s : state) :
  ctx_err = errorVar Canceled \/ ctx_err = errorVar DeadlineExceeded ->
  callback <> nil_func -> 1 <= numWorkers ->
  1 <= maxIter <= GoInt.max_int ->
  ~ In CtxDone sched ->
  semimpl.run ctx_err callback maxIter sched (semimpl.Do false numWorkers maxIter)
  = Some s ->
  invocations s <= maxIter /\
  (returned s = true ->
   invocations s = maxIter /\ executions s = maxIter /\ executing s = 0) /\
  (exists sched' s',
     ~ In CtxDone sched' /\
     semimpl.run ctx_err callback maxIter sched' s = Some s' /\
     returned s' = true).
Proof.
  intros Hc Hcb HW HM Hin Hr. rewrite (run_eq _ _ _ _ _ Hc Hcb) in Hr.
  destruct (inv_run _ maxIter sched _ s HM
              (inv_semimpl false numWorkers maxIter ltac:(lia) ltac:(lia)) Hr)
    as [[Hg Hl] _].
  pose proof (run_never_done maxIter sched _ s
                (eq_refl : ctx_done (semimpl.Do false numWorkers maxIter) = false)
                Hin Hr) as Hcd.
  pose proof (steps_left_nonneg _ _ Hl) as H0.
  split; [|split].
  - destruct Hl as [Hi Hle _ _ _]. unfold invocations.
    pose proof (count_le_len entered (goroutines s)). unfold issued in Hi. lia.
  - intros Hret. destruct Hl as [Hi _ _ Hexit _].
    pose proof (gi_done _ _ Hg Hret) as Hdone.
    destruct (count_alive_zero _ Hdone) as (He & Hx & Hi0 & _).
    assert (i s = maxIter) as Him
      by (apply Hexit; [exact Hcd|]; unfold returned in Hret;
          destruct (main s); auto).
    unfold invocations, executions, executing, issued in *.
    repeat split; lia.
  - destruct (eventually_returns
                {| numWorker := numWorkers; sem := NewWeighted numWorkers |}
                maxIter (Z.to_nat (steps_left maxIter s)) s HM)
      as (sched' & s' & Hp & Hr' & Hret');
      [simpl; lia | lia | split; assumption |].
    exists sched', s'. split; [apply program_actions_never_done; exact Hp|].
    rewrite (run_eq _ _ _ _ _ Hc Hcb). split; assumption.
Qed.

(** Three workers, one iteration. *)
Lemma semimpl_iteration_cap_witness :
  exists s,
    semimpl.run (errorVar Canceled) (closure "f") 1
      [Main; Main; Main; Worker 0; Worker 0; Worker 0; Worker 0; Main; Main]
      (semimpl.Do false 3 1)
    = Some s /\
    returned s = true /\
    invocations s = 1 /\ executions s = 1 /\ executing s = 0.
Proof.
  eexists. split; [vm_compute; reflexivity|]. split; [reflexivity|].
  refine (proj1 (proj2
    (semimpl_iteration_cap (errorVar Canceled) (closure "f") 3 1
       [Main; Main; Main; Worker 0; Worker 0; Worker 0; Worker 0; Main; Main]
       _ (or_introl eq_refl) _ _ _ _ eq_refl)) eq_refl).
  - discriminate.
  - lia.
  - unfold GoInt.max_int. lia.
  - simpl. intuition discriminate.
Defined.

Lemma lookup_last (n : nat) (p : phase) :
  (repeat Exited n ++ [p]) !! n = Some p.
Proof. apply list_lookup_middle. rewrite repeat_length. reflexivity. Qed.

Lemma insert_last (n : nat) (p q : phase) :
  <[n := q]> (repeat Exited n ++ [p]) = repeat Exited n ++ [q].
Proof.
  rewrite insert_app_r_alt by (rewrite repeat_length; lia).
  rewrite repeat_length, Nat.sub_diag. reflexivity.
Qed.

Lemma state_ext (s s' : state) :
  main s = main s' -> i s = i s' -> wg s = wg s' -> gate s = gate s' ->
  ctx_done s = ctx_done s' -> goroutines s = goroutines s' -> s = s'.
Proof. destruct s, s'. simpl. intros; subst; reflexivity. Qed.

Lemma turn_run (W : Z) (n : nat) :
  1 <= W ->
  dispatcher.run 0 (semimpl.turn n) (semimpl.after_turns W n)
  = Some (semimpl.after_turns W (S n)).
Proof.
  intros HW. unfold semimpl.turn, semimpl.after_turns.
  assert (E1 : (0 + 1 <=? W) = true) by (apply Z.leb_le; lia).
  cbn -[Nat.iter repeat Z.ltb Z.leb lookup insert].
  rewrite orb_true_r.
  cbn -[Nat.iter repeat Z.leb lookup insert].
  unfold Acquire.
  cbn -[Nat.iter repeat Z.leb lookup insert].
  rewrite E1.
  do 6 (unfold Release, wg_Done;
        cbn -[Nat.iter repeat Z.leb lookup insert];
        change (0 + 1 - 1) with 0; change (0 <? 0) with false;
        rewrite ?insert_last, ?lookup_last).
  cbn -[Nat.iter repeat Z.leb lookup insert].
  f_equal. apply state_ext; cbn -[Nat.iter repeat Z.leb lookup insert];
    try reflexivity.
  rewrite !insert_last. symmetry. apply repeat_cons.
Qed.

Lemma turns_run (W : Z) (n : nat) :
  1 <= W ->
  dispatcher.run 0 (semimpl.turns n) (semimpl.Do false W 0)
  = Some (semimpl.after_turns W n).
Proof.
  intros HW. induction n as [|n IH]; [reflexivity|].
  simpl semimpl.turns. rewrite run_app, IH. apply turn_run. exact HW.
Qed.

Lemma count_completed_repeat (n : nat) :
  count completed (repeat Exited n) = Z.of_nat n.
Proof. induction n as [|n IH]; simpl repeat; simpl count; [reflexivity | lia]. Qed.

(** With [maxIter = 0] a step that is not the context's keeps the main
    goroutine inside the loop. *)
Lemma zero_stays_in_loop (a : action) (s s' : state) :
  ctx_done s = false -> left_loop (main s) = false -> a <> CtxDone ->
  dispatcher.exec 0 a s = Some s' ->
  ctx_done s' = false /\ left_loop (main s') = false.
Proof.
  intros Hc Hl Ha. destruct a as [| |k|]; simpl; try congruence.
  - unfold main_step. destruct (main s); try discriminate.
    + rewrite orb_true_r. intros [= <-]. auto.
    + destruct (Acquire (gate s)); [|discriminate]. intros [= <-]. auto.
    + intros [= <-]. auto.
  - unfold acquire_err_step. rewrite Hc. destruct (main s); discriminate.
  - unfold worker_step, wg_Done.
    destruct (main s) eqn:Hm, (goroutines s !! k) as [[]|]; try discriminate;
      try (intros [= <-]; simpl; rewrite ?Hm; auto);
      try (destruct (Release (gate s)); intros [= <-]; simpl; rewrite ?Hm; auto);
      try (destruct (wg s - 1 <? 0); intros [= <-]; simpl; rewrite ?Hm; auto).
Qed.

Lemma zero_run_stays_in_loop (ctx_err : error) (cb : func)
    (sched : list action) (s s' : state) :
  ctx_done s = false -> left_loop (main s) = false -> ~ In CtxDone sched ->
  semimpl.run ctx_err cb 0 sched s = Some s' ->
  ctx_done s' = false /\ left_loop (main s') = false.
Proof.
  revert s. induction sched as [|a sched IH]; simpl; intros s Hc Hl Hin.
  - intros [= <-]. auto.
  - destruct (semimpl.exec ctx_err cb 0 a s) as [s1|] eqn:E; [|discriminate].
    assert (H1 : ctx_done s1 = false /\ left_loop (main s1) = false).
    { destruct (semimpl_exec_cases _ _ _ _ _ _ E) as [E1 | [-> _]].
      - apply (zero_stays_in_loop a s s1 Hc Hl); [|exact E1].
        intros ->. apply Hin. left. reflexivity.
      - split; [exact Hc | reflexivity]. }
    destruct H1 as [Hc1 Hl1]. apply IH; auto.
Qed.

(** With a non-nil callback the steps of the program are those of the
    dispatcher, whatever the error of the context. *)
Lemma run_eq_program (ctx_err : error) (cb : func) (M : Z)
    (sched : list action) (s : state) :
  cb <> nil_func -> forallb program_action sched = true ->
  semimpl.run ctx_err cb M sched s = dispatcher.run M sched s.
Proof.
  intros Hcb. revert s. induction sched as [|a sched IH]; intros s; simpl.
  - reflexivity.
  - intros H. apply andb_true_iff in H as [Ha Hs].
    assert (E : semimpl.exec ctx_err cb M a s = dispatcher.exec M a s).
    { destruct a as [| |k|]; try discriminate; try reflexivity.
      unfold semimpl.exec. destruct cb; [congruence | reflexivity]. }
    rewrite E. destruct (dispatcher.exec M a s); [apply IH; exact Hs | reflexivity].
Qed.

Lemma turns_program (n : nat) :
  forallb program_action (semimpl.turns n) = true.
Proof.
  induction n as [|n IH]; [reflexivity|].
  simpl semimpl.turns. rewrite forallb_app, IH. reflexivity.
Qed.

(** X6.  [semimpl.Do] with [maxIter = 0] has no iteration limit.
    Whatever the worker count, the callback and the value of [ctx.Err()],
    as long as the context is not done the main goroutine never leaves
    the loop, so [Do] does not return.  With at least one worker and a
    non-nil callback that returns, for every [n] there is a run in which
    [n] iterations are issued and their [n] invocations of the callback
    return.  (With no worker to give nothing is issued: the main
    goroutine stays in its first [Acquire].) *)
Theorem semimpl_zero_is_unbounded (ctx_err : error) (callback : func)
    (numWorkers : Z) :
  (forall sched s,
     ~ In CtxDone sched ->
     semimpl.run ctx_err callback 0 sched (semimpl.Do false numWorkers 0) = Some s ->
     left_loop (main s) = false /\ returned s = false) /\
  (callback <> nil_func -> 1 <= numWorkers ->
   forall n : nat,
     exists s,
       semimpl.run ctx_err callback 0 (semimpl.turns n)
         (semimpl.Do false numWorkers 0) = Some s /\
       issued s = Z.of_nat n /\ executions s = Z.of_nat n).
Proof.
  split.
  - intros sched s Hin Hr.
    assert (H : ctx_done s = false /\ left_loop (main s) = false)
      by (apply (zero_run_stays_in_loop ctx_err callback sched
                   (semimpl.Do false numWorkers 0) s); auto).
    destruct H as [_ Hl]. split; [exact Hl|].
    unfold returned. destruct (main s); try reflexivity; discriminate.
  - intros Hcb HW n. exists (semimpl.after_turns numWorkers n).
    rewrite (run_eq_program _ _ _ _ _ Hcb (turns_program n)).
    split; [apply turns_run; exact HW|].
    unfold issued, executions, semimpl.after_turns, GoInt.len. simpl goroutines.
    rewrite repeat_length, count_completed_repeat. auto.
Qed.

(** Two workers: no return after three steps, and two full turns. *)
Lemma semimpl_zero_is_unbounded_witness :
  (exists s,
     semimpl.run (errorVar Canceled) (closure "f") 0 [Main; Main; Main]
       (semimpl.Do false 2 0) = Some s /\ returned s = false) /\
  (exists s,
     semimpl.run (errorVar Canceled) (closure "f") 0 (semimpl.turns 2)
       (semimpl.Do false 2 0) = Some s /\ issued s = 2 /\ executions s = 2).
Proof.
  destruct (semimpl_zero_is_unbounded (errorVar Canceled) (closure "f") 2)
    as [H1 H2].
  split.
  - eexists. split; [vm_compute; reflexivity|].
    refine (proj2 (H1 [Main; Main; Main] _ _ eq_refl)).
    simpl. intuition discriminate.
  - exact (H2 ltac:(discriminate) ltac:(lia) 2%nat).
Defined.

(** X7.  [semimpl.Do] with a negative [maxIter] does nothing: in no run
    is an iteration issued or the callback invoked, whatever the worker
    count, the callback and the context, and the two steps of the main
    goroutine bring it to its return. *)
Theorem semimpl_negative_maxIter (ctx_err : error) (callback : func)
    (done0 : bool) (numWorkers maxIter : Z) (sched : list action) (s : state) :
  maxIter < 0 ->
  semimpl.run ctx_err callback maxIter sched (semimpl.Do done0 numWorkers maxIter)
  = Some s ->
  issued s = 0 /\ invocations s = 0 /\ main s <> Panicked /\
  exists s',
    semimpl.run ctx_err callback maxIter [Main; Main]
      (semimpl.Do done0 numWorkers maxIter) = Some s' /\
    main s' = Done None.
Proof.
  intros HM Hr.
  assert (E1 : (0 <? maxIter) = false) by (apply Z.ltb_ge; lia).
  assert (E2 : (maxIter =? 0) = false) by (apply Z.eqb_neq; lia).
  assert (H : goroutines s = [] /\ i s = 0 /\ wg s = 0 /\
              (main s = AtCond \/ main s = AtWait \/ main s = Done None)).
  { revert Hr.
    assert (H0 : goroutines (semimpl.Do done0 numWorkers maxIter) = [] /\
                 i (semimpl.Do done0 numWorkers maxIter) = 0 /\
                 wg (semimpl.Do done0 numWorkers maxIter) = 0 /\
                 (main (semimpl.Do done0 numWorkers maxIter) = AtCond \/
                  main (semimpl.Do done0 numWorkers maxIter) = AtWait \/
                  main (semimpl.Do done0 numWorkers maxIter) = Done None))
      by (repeat split; auto).
    revert H0. generalize (semimpl.Do done0 numWorkers maxIter) as s0.
    induction sched as [|a sched IH]; simpl; intros s0 (Hg & Hi & Hw & Hm).
    - intros [= <-]. auto.
    - destruct (semimpl.exec ctx_err callback maxIter a s0) as [s1|] eqn:E;
        [|discriminate].
      apply IH. destruct a as [| |k|]; simpl in E.
      + unfold main_step in E. rewrite Hi, Hw, E1, E2 in E.
        destruct Hm as [Hm | [Hm | Hm]]; rewrite Hm in E; simpl in E;
          try discriminate; injection E as <-; simpl; auto 10.
      + unfold acquire_err_step in E.
        destruct Hm as [Hm | [Hm | Hm]]; rewrite Hm in E; discriminate.
      + rewrite Hg in E. unfold worker_step in E. rewrite Hg in E.
        destruct callback, (main s0); discriminate.
      + unfold ctx_step in E.
        destruct Hm as [Hm | [Hm | Hm]]; rewrite Hm in E;
          (destruct (ctx_done s0); [discriminate|]); injection E as <-;
          simpl; auto 10. }
  destruct H as (Hg & _ & _ & Hm).
  unfold issued, invocations. rewrite Hg.
  split; [reflexivity|]. split; [reflexivity|]. split.
  - destruct Hm as [Hm | [Hm | Hm]]; rewrite Hm; discriminate.
  - eexists. simpl. unfold main_step. simpl. rewrite E1, E2. simpl.
    split; reflexivity.
Qed.

(** Minus one, the value the configuration uses for no limit. *)
Lemma semimpl_negative_maxIter_witness :
  -1 < 0 /\
  exists s,
    semimpl.run (errorVar Canceled) nil_func (-1) [Main; CtxDone; Main]
      (semimpl.Do false 4 (-1)) = Some s /\
    issued s = 0 /\ invocations s = 0 /\ main s = Done None.
Proof.
  split; [lia|]. eexists. split; [vm_compute; reflexivity|].
  destruct (semimpl_negative_maxIter (errorVar Canceled) nil_func false 4 (-1)
              [Main; CtxDone; Main] _ ltac:(lia) eq_refl) as (H1 & H2 & _).
  split; [exact H1|]. split; [exact H2 | reflexivity].
Defined.

(** X8.  [semimpl.Do] with no worker to give ([numWorkers <= 0]) and a
    context that never becomes done is stuck in its first [Acquire]: a
    run has at most one step, after which no action of the program is
    enabled; [Do] never returns and the callback is never invoked. *)
Theorem semimpl_no_worker_blocks (ctx_err : error) (callback : func)
    (numWorkers maxIter : Z) (sched : list action) (s : state) :
  numWorkers <= 0 -> 0 <= maxIter -> ~ In CtxDone sched ->
  semimpl.run ctx_err callback maxIter sched (semimpl.Do false numWorkers maxIter)
  = Some s ->
  (length sched <= 1)%nat /\ returned s = false /\ issued s = 0 /\
  (sched <> [] ->
   main s = AtAcquire /\
   forall a, a <> CtxDone -> semimpl.exec ctx_err callback maxIter a s = None).
Proof.
  intros HW HM Hin Hr.
  assert (Hcond : (0 <? maxIter) || (maxIter =? 0) = true).
  { destruct (Z.eq_dec maxIter 0) as [->|Hne]; [reflexivity|].
    apply orb_true_iff. left. apply Z.ltb_lt. lia. }
  assert (Hacq : (0 + 1 <=? numWorkers) = false) by (apply Z.leb_gt; lia).
  set (s1 := set_main AtAcquire
               (set_wg (0 + 1) (semimpl.Do false numWorkers maxIter))).
  assert (Hstuck : forall a, a <> CtxDone ->
            semimpl.exec ctx_err callback maxIter a s1 = None).
  { intros [| |k|] Ha; simpl; try congruence.
    - unfold main_step, Acquire. simpl. rewrite Hacq. reflexivity.
    - destruct callback; reflexivity. }
  destruct sched as [|a sched].
  - injection Hr as <-. split; [simpl; lia|]. split; [reflexivity|].
    split; [reflexivity|]. intros H. congruence.
  - simpl in Hr.
    assert (Ha : a = Main /\
              semimpl.exec ctx_err callback maxIter a
                (semimpl.Do false numWorkers maxIter) = Some s1).
    { destruct a as [| |k|].
      - split; [reflexivity|]. simpl. unfold main_step. simpl.
        rewrite Hcond. reflexivity.
      - simpl in Hr. discriminate.
      - simpl in Hr. destruct callback; discriminate.
      - exfalso. apply Hin. left. reflexivity. }
    destruct Ha as [-> Ha]. rewrite Ha in Hr.
    destruct sched as [|b sched].
    + injection Hr as <-. split; [simpl; lia|]. split; [reflexivity|].
      split; [reflexivity|]. intros _. split; [reflexivity | exact Hstuck].
    + simpl in Hr. rewrite Hstuck in Hr; [discriminate|].
      intros ->. apply Hin. right. left. reflexivity.
Qed.

(** No worker, three iterations asked. *)
Lemma semimpl_no_worker_blocks_witness :
  exists s,
    semimpl.run (errorVar Canceled) (closure "f") 3 [Main]
      (semimpl.Do false 0 3) = Some s /\
    main s = AtAcquire /\
    semimpl.exec (errorVar Canceled) (closure "f") 3 Main s = None.
Proof.
  eexists. split; [vm_compute; reflexivity|].
  destruct (semimpl_no_worker_blocks (errorVar Canceled) (closure "f") 0 3
              [Main] _ ltac:(lia) ltac:(lia)
              ltac:(simpl; intuition discriminate) eq_refl)
    as (_ & _ & _ & H).
  destruct (H ltac:(discriminate)) as [Hm Hs].
  split; [exact Hm|]. apply Hs. discriminate.
Defined.

End semimpl_facts.

(** ** The helpers of the dispatcher's tests *)
Module dispatcher_test_facts.
Import dispatcher_test.

Lemma groupby_loop_closed (src : list Z) (by_ : Z) (n : nat) (i : Z)
    (out : list (list Z)) :
  groupby_loop src by_ n i out
  = out ++ map (fun j => slice src (by_ * (i + Z.of_nat j))
                           (by_ * (i + Z.of_nat j) + by_))
               (seq 0 n).
Proof.
  revert i out. induction n as [|n IH]; intros i out.
  - simpl. rewrite app_nil_r. reflexivity.
  - simpl groupby_loop. rewrite IH. rewrite <- app_assoc. f_equal.
    change (seq 0 (S n)) with (0%nat :: seq 1 n).
    simpl map. rewrite <- seq_shift, map_map. simpl app.
    replace (i + Z.of_nat 0) with i by lia. f_equal.
    apply map_ext. intros j. f_equal; f_equal; lia.
Qed.

Lemma slice_take_drop (src : list Z) (b : nat) (j : nat) :
  slice src (Z.of_nat b * (0 + Z.of_nat j))
            (Z.of_nat b * (0 + Z.of_nat j) + Z.of_nat b)
  = take b (drop (b * j) src).
Proof.
  unfold slice. f_equal; [lia|]. f_equal. lia.
Qed.

Lemma take_add (A : Type) (l : list A) (n m : nat) :
  take (n + m) l = take n l ++ take m (drop n l).
Proof.
  revert l. induction n as [|n IH]; intros l; simpl; [reflexivity|].
  destruct l as [|a l]; simpl.
  - destruct m; reflexivity.
  - rewrite IH. reflexivity.
Qed.

Lemma concat_groups (src : list Z) (b n : nat) :
  concat (map (fun j => take b (drop (b * j) src)) (seq 0 n))
  = take (b * n) src.
Proof.
  induction n as [|n IH].
  - rewrite Nat.mul_0_r. reflexivity.
  - rewrite seq_S, map_app, concat_app, IH. simpl.
    rewrite app_nil_r, Nat.mul_succ_r, take_add. reflexivity.
Qed.

(** X9.  [groupby] with a positive group size cuts [src] into
    [len(src) / by] consecutive groups of exactly [by] elements each;
    put end to end they are the first [by * (len(src) / by)] elements of
    [src], and the [len(src) % by] elements that remain are left out. *)
Theorem groupby_groups (src : list Z) (by_ : Z) :
  1 <= by_ ->
  exists gs,
    groupby src by_ = Returns gs /\
    GoInt.len gs = GoInt.len src / by_ /\
    Forall (fun g => GoInt.len g = by_) gs /\
    concat gs = take (Z.to_nat (by_ * (GoInt.len src / by_))) src.
Proof.
  intros Hby. unfold groupby.
  destruct (by_ =? 0) eqn:E0; [apply Z.eqb_eq in E0; lia|].
  pose proof (GoInt_facts.len_nonneg src) as Hlen.
  rewrite Z.quot_div_nonneg by lia.
  set (q := GoInt.len src / by_).
  assert (Hq : 0 <= q) by (apply Z.div_pos; lia).
  assert (Hmul : by_ * q <= GoInt.len src) by (apply Z.mul_div_le; lia).
  destruct (q <? 0) eqn:E1; [apply Z.ltb_lt in E1; lia|].
  eexists. split; [reflexivity|].
  rewrite groupby_loop_closed. simpl app.
  set (b := Z.to_nat by_). set (n := Z.to_nat q).
  assert (Hb : by_ = Z.of_nat b) by (unfold b; lia).
  assert (Hn : q = Z.of_nat n) by (unfold n; lia).
  assert (Hbn : (b * n <= length src)%nat).
  { unfold GoInt.len in Hmul. rewrite Hb, Hn in Hmul. nia. }
  rewrite Hb.
  rewrite (map_ext _ (fun j => take b (drop (b * j) src)))
    by (intros j; apply slice_take_drop).
  split; [|split].
  - unfold GoInt.len. rewrite length_map, length_seq. lia.
  - apply List.Forall_forall. intros g Hg.
    apply in_map_iff in Hg as (j & <- & Hj).
    apply in_seq in Hj. unfold GoInt.len.
    rewrite length_take, length_drop.
    assert (b * j + b <= b * n)%nat by nia. lia.
  - rewrite concat_groups. f_equal. rewrite Hn.
    rewrite <- Nat2Z.inj_mul, Nat2Z.id. reflexivity.
Qed.

(** Seven durations in groups of three. *)
Lemma groupby_groups_witness :
  1 <= 3 /\
  groupby [1; 2; 3; 4; 5; 6; 7] 3 = Returns [[1; 2; 3]; [4; 5; 6]].
Proof.
  split; [lia|].
  destruct (groupby_groups [1; 2; 3; 4; 5; 6; 7] 3 ltac:(lia)) as (gs & H & _).
  rewrite H. vm_compute in H. injection H as <-. reflexivity.
Defined.

Lemma minof_fold (l : list Z) (m : Z) :
  0 < m -> Forall (fun d => 0 < d) l ->
  let r := fold_left (fun min d => if (d <? min) || (min =? 0) then d else min) l m in
  0 < r /\ r <= m /\ Forall (fun d => r <= d) l /\ (r = m \/ In r l).
Proof.
  revert m. induction l as [|d l IH]; intros m Hm Hl; simpl.
  - repeat split; auto; lia.
  - inversion Hl as [|? ? Hd Hl']; subst.
    assert (E0 : (m =? 0) = false) by (apply Z.eqb_neq; lia).
    rewrite E0, orb_false_r.
    destruct (d <? m) eqn:E; [apply Z.ltb_lt in E | apply Z.ltb_ge in E].
    + destruct (IH d Hd Hl') as (H1 & H2 & H3 & H4).
      split; [exact H1|]. split; [lia|]. split.
      * constructor; [lia | exact H3].
      * right. destruct H4 as [->|H4]; [left; reflexivity | right; exact H4].
    + destruct (IH m Hm Hl') as (H1 & H2 & H3 & H4).
      split; [exact H1|]. split; [lia|]. split.
      * constructor; [lia | exact H3].
      * destruct H4 as [H4|H4]; [left; exact H4 | right; right; exact H4].
Qed.

(** X10.  [minof] of durations that are all positive is their minimum:
    an element of the slice that no element is below.  (A zero among
    them would be taken for the unset minimum.) *)
Theorem minof_is_minimum (src : list Z) :
  src <> [] -> Forall (fun d => 0 < d) src ->
  In (minof src) src /\ Forall (fun d => minof src <= d) src.
Proof.
  intros Hne Hpos. destruct src as [|d l]; [congruence|].
  inversion Hpos as [|? ? Hd Hl]; subst.
  unfold minof. simpl fold_left. rewrite orb_true_r.
  destruct (minof_fold l d Hd Hl) as (H1 & H2 & H3 & H4). split.
  - destruct H4 as [->|H4]; [left; reflexivity | right; exact H4].
  - constructor; [exact H2 | exact H3].
Qed.

(** Three elapsed times. *)
Lemma minof_is_minimum_witness :
  [30; 10; 20] <> [] /\ Forall (fun d => 0 < d) [30; 10; 20] /\
  In (minof [30; 10; 20]) [30; 10; 20] /\
  Forall (fun d => minof [30; 10; 20] <= d) [30; 10; 20].
Proof.
  split; [discriminate|].
  assert (H : Forall (fun d => 0 < d) [30; 10; 20])
    by (repeat constructor).
  split; [exact H|].
  apply (minof_is_minimum [30; 10; 20]); [discriminate | exact H].
Defined.

Lemma maxof_fold (l : list Z) (m : Z) :
  let r := fold_left (fun max d => if d >? max then d else max) l m in
  m <= r /\ Forall (fun d => d <= r) l /\ (r = m \/ In r l).
Proof.
  revert m. induction l as [|d l IH]; intros m; simpl.
  - repeat split; auto; lia.
  - rewrite Z.gtb_ltb.
    destruct (m <? d) eqn:E; [apply Z.ltb_lt in E | apply Z.ltb_ge in E].
    + destruct (IH d) as (H1 & H2 & H3).
      split; [lia|]. split; [constructor; [exact H1 | exact H2]|].
      right. destruct H3 as [->|H3]; [left; reflexivity | right; exact H3].
    + destruct (IH m) as (H1 & H2 & H3).
      split; [exact H1|]. split; [constructor; [lia | exact H2]|].
      destruct H3 as [H3|H3]; [left; exact H3 | right; right; exact H3].
Qed.

(** X11.  [maxof] is never negative and never below an element of the
    slice; it is an element of the slice unless it is 0, the value it
    starts from, so on a slice with a positive element it is the
    maximum and on a slice without one it is 0. *)
Theorem maxof_is_upper_bound (src : list Z) :
  0 <= maxof src /\ Forall (fun d => d <= maxof src) src /\
  (maxof src = 0 \/ In (maxof src) src).
Proof. unfold maxof. apply (maxof_fold src 0). Qed.

End dispatcher_test_facts.

(** ** More on the requester and on the report *)
Module requester_more.
Import requester GoInt_facts requester_facts.

Lemma record_appends (req : HttpRequest) (interval : Duration) (a : Attempt)
    (r : Requester) :
  exists rec, fst (record req interval a r) = appendRecord r rec.
Proof.
  unfold record.
  destruct (cloneRequest a req); [|eexists; reflexivity].
  destruct (client_Do a); [|eexists; reflexivity].
  destruct (ReadAll a); eexists; reflexivity.
Qed.

Lemma dispatch_appends (req : HttpRequest) (interval : Duration)
    (l : list Attempt) (r : Requester) :
  exists recs,
    length recs = length l /\
    dispatch req interval l r = fold_left appendRecord recs r.
Proof.
  revert r. induction l as [|a l IH]; intros r.
  - exists []. split; reflexivity.
  - destruct (record_appends req interval a r) as [rec Hrec].
    destruct (IH (appendRecord r rec)) as (recs & Hlen & Hd).
    exists (rec :: recs). split; [simpl; lia|].
    unfold dispatch in *. simpl. rewrite Hrec. exact Hd.
Qed.

(** X12.  A run of the closure over any attempts keeps the store
    consistent: from a Requester whose [numErr] counts its failed
    Records, [dispatch] appends exactly one Record per attempt after
    those already there, and [numErr] still counts the failed Records. *)
Theorem dispatch_keeps_store (req : HttpRequest) (interval : Duration)
    (l : list Attempt) (r : Requester) :
  numErr r = count_failed (records r) ->
  GoInt.len (records r) + GoInt.len l <= GoInt.max_int ->
  exists recs,
    records (dispatch req interval l r) = records r ++ recs /\
    GoInt.len recs = GoInt.len l /\
    numErr (dispatch req interval l r)
    = count_failed (records (dispatch req interval l r)).
Proof.
  intros Hn Hlen.
  destruct (dispatch_appends req interval l r) as (recs & Hl & Hd).
  destruct (appendRecord_fold recs r Hn) as [Hr He].
  { rewrite len_app. unfold GoInt.len in *. lia. }
  exists recs. rewrite Hd, Hr. split; [reflexivity|].
  split; [unfold GoInt.len; lia | exact He].
Qed.

(** Two attempts, the first refused by the server's host, on an empty
    store. *)
Lemma dispatch_keeps_store_witness :
  exists recs,
    records (dispatch
      {| req_method := "GET"; req_url := "http://a.b"; has_body := false |} 0
      [ {| GetBody := None; client_Do := inr (errorString "refused");
           ReadAll := inl []; Since := 1; tracer_events := [] |};
        {| GetBody := None; client_Do := inl {| StatusCode := 200 |};
           ReadAll := inl []; Since := 2; tracer_events := [] |} ]
      (New {| Method := "GET"; URL := Some "http://a.b"; Timeout := 0;
              Requests := 2; Concurrency := 1; GlobalTimeout := 0;
              Interval := 0 |}))
    = [] ++ recs /\
    GoInt.len recs = 2.
Proof.
  destruct (dispatch_keeps_store
    {| req_method := "GET"; req_url := "http://a.b"; has_body := false |} 0
    [ {| GetBody := None; client_Do := inr (errorString "refused");
         ReadAll := inl []; Since := 1; tracer_events := [] |};
      {| GetBody := None; client_Do := inl {| StatusCode := 200 |};
         ReadAll := inl []; Since := 2; tracer_events := [] |} ]
    (New {| Method := "GET"; URL := Some "http://a.b"; Timeout := 0;
            Requests := 2; Concurrency := 1; GlobalTimeout := 0;
            Interval := 0 |})
    eq_refl ltac:(unfold GoInt.len, GoInt.max_int; simpl; lia))
    as (recs & H1 & H2 & _).
  exists recs. split; [exact H1 | exact H2].
Defined.

(** X13.  When [Run] on a fresh Requester returns a nil error, the
    Report is made from a store that holds exactly one Record per
    attempt and whose error count is the number of Records with an
    error; the Requester is marked done and keeps a nil [runErr]. *)
Theorem Run_report_is_consistent {Report : Type} (zeroReport : Report)
    (makeReport : Config -> list RecordT -> Z -> Report)
    (w : World) (cfg : Config) (r' : Requester) (rep : Report) :
  GoInt.len (attempts w) <= GoInt.max_int ->
  Run zeroReport makeReport w (New cfg) = Returns (r', (rep, None)) ->
  GoInt.len (records r') = GoInt.len (attempts w) /\
  numErr r' = count_failed (records r') /\
  rep = makeReport (config r') (records r') (numErr r') /\
  done r' = true /\ runErr r' = None.
Proof.
  intros Hlen. unfold Run, ping.
  destruct (HTTPRequest w (config (New cfg))) as [req|err]; [|discriminate].
  destruct (ping_Do w); [discriminate|].
  destruct (dispatcher.New (Concurrency (config (New cfg)))) as [d|f n];
    [|discriminate].
  destruct (dispatcher.validate d (Requests (config (New cfg))) (closure "record"))
    as [e|] eqn:Hv.
  - destruct (dispatcher_facts.validate_error _ _ _ _ Hv) as (_ & Hc & Hd).
    rewrite Hc, Hd. simpl. discriminate.
  - intros [= <- <-]. simpl.
    destruct (dispatch_keeps_store req (Interval (config (New cfg)))
                (attempts w) (New cfg) eq_refl)
      as (recs & Hr & Hl & He).
    { simpl. unfold GoInt.len in *. simpl. lia. }
    simpl in Hr, He. repeat split; try reflexivity.
    + rewrite Hr. exact Hl.
    + rewrite He, Hr. reflexivity.
Qed.

(** One successful attempt against a reachable target. *)
Lemma Run_report_is_consistent_witness :
  exists r' rep,
    Run ([], 0) (fun _ recs n => (recs, n))
      {| ParseRequestURI := fun _ => true;
         NewRequest := fun m u =>
           inl {| req_method := m; req_url := u; has_body := false |};
         ping_Do := None;
         attempts := [ {| GetBody := None;
                          client_Do := inl {| StatusCode := 200 |};
                          ReadAll := inl []; Since := 2;
                          tracer_events := [] |} ] |}
      (New {| Method := "GET"; URL := Some "http://a.b"; Timeout := 0;
              Requests := 1; Concurrency := 1; GlobalTimeout := 0;
              Interval := 0 |})
    = Returns (r', (rep, None)) /\
    GoInt.len (records r') = 1 /\ numErr r' = 0 /\ done r' = true.
Proof.
  eexists. eexists. split; [vm_compute; reflexivity|].
  split; [reflexivity|]. split; [reflexivity|].
  refine (proj1 (proj2 (proj2 (proj2
    (Run_report_is_consistent ([], 0) (fun _ recs n => (recs, n))
       {| ParseRequestURI := fun _ => true;
          NewRequest := fun m u =>
            inl {| req_method := m; req_url := u; has_body := false |};
          ping_Do := None;
          attempts := [ {| GetBody := None;
                           client_Do := inl {| StatusCode := 200 |};
                           ReadAll := inl []; Since := 2;
                           tracer_events := [] |} ] |}
       {| Method := "GET"; URL := Some "http://a.b"; Timeout := 0;
          Requests := 1; Concurrency := 1; GlobalTimeout := 0;
          Interval := 0 |} _ _ _ eq_refl))))).
  unfold GoInt.len, GoInt.max_int. simpl. lia.
Defined.

End requester_more.

(** ** More on the report of package request *)
Module request_more.
Import request GoInt_facts request_facts.

Lemma successes_count (l : list RecordT) :
  GoInt.len (requester.successes l) + requester.count_failed l = GoInt.len l.
Proof.
  unfold GoInt.len. induction l as [|a l IH]; [reflexivity|].
  simpl requester.successes. simpl requester.count_failed. simpl length.
  destruct (requester.failed a); simpl Z.b2z; simpl length; lia.
Qed.

Lemma successes_no_error (l : list RecordT) :
  Forall (fun rec => requester.Error rec = None) (requester.successes l).
Proof.
  induction l as [|a l IH]; simpl; [constructor|].
  unfold requester.failed. destruct (requester.Error a) eqn:E; [exact IH|].
  constructor; assumption.
Qed.

(** X14.  [Collect] loses no Record: those without error are kept in the
    order of their arrival, none of the kept ones has an error,
    [Length] is their number, [Fail] is the number of Records with an
    error, and [Length + Fail] is the number of Records received;
    [Success] is left at 0. *)
Theorem Collect_partitions (chan : list RecordT) :
  GoInt.len chan <= GoInt.max_int ->
  Records (Collect chan) = requester.successes chan /\
  Forall (fun rec => requester.Error rec = None) (Records (Collect chan)) /\
  Length (Collect chan) = GoInt.len (Records (Collect chan)) /\
  Fail (Collect chan) = requester.count_failed chan /\
  Length (Collect chan) + Fail (Collect chan) = GoInt.len chan /\
  Success (Collect chan) = 0.
Proof.
  intros Hlen. rewrite (Collect_computes chan Hlen). simpl.
  pose proof (successes_count chan). pose proof (successes_no_error chan).
  repeat split; auto.
Qed.

(** A success between two failures. *)
Lemma Collect_partitions_witness :
  GoInt.len [requester.failure (errorString "a");
             {| requester.Time := 7; requester.Code := 200; requester.Bytes := 3;
                requester.Error := None; requester.Events := [] |};
             requester.failure (errorString "b")] <= GoInt.max_int /\
  Length (Collect
    [requester.failure (errorString "a");
     {| requester.Time := 7; requester.Code := 200; requester.Bytes := 3;
        requester.Error := None; requester.Events := [] |};
     requester.failure (errorString "b")])
  + Fail (Collect
    [requester.failure (errorString "a");
     {| requester.Time := 7; requester.Code := 200; requester.Bytes := 3;
        requester.Error := None; requester.Events := [] |};
     requester.failure (errorString "b")]) = 3.
Proof.
  split; [unfold GoInt.len, GoInt.max_int; simpl; lia|].
  apply (Collect_partitions
    [requester.failure (errorString "a");
     {| requester.Time := 7; requester.Code := 200; requester.Bytes := 3;
        requester.Error := None; requester.Events := [] |};
     requester.failure (errorString "b")]).
  unfold GoInt.len, GoInt.max_int; simpl; lia.
Defined.

End request_more.

(** ** The configuration *)
Module config_facts.
Import config.

Ltac field_cases f :=
  unfold Override_field;
  repeat match goal with
         | |- context [String.eqb f ?F] =>
             let E := fresh "E" in
             destruct (String.eqb f F) eqn:E;
             [apply String.eqb_eq in E; subst f|]
         end;
  try reflexivity; try discriminate.

Lemma Override_field_Method (c cfg : Config) (f : string) :
  Method (Override_field c cfg f)
  = if String.eqb f FieldMethod then Method c else Method cfg.
Proof. field_cases f. Qed.

Lemma Override_field_URL (c cfg : Config) (f : string) :
  URL (Override_field c cfg f)
  = if String.eqb f FieldURL then URL c else URL cfg.
Proof. field_cases f. Qed.

Lemma Override_field_Timeout (c cfg : Config) (f : string) :
  Timeout (Override_field c cfg f)
  = if String.eqb f FieldTimeout then Timeout c else Timeout cfg.
Proof. field_cases f. Qed.

Lemma Override_field_Requests (c cfg : Config) (f : string) :
  Requests (Override_field c cfg f)
  = if String.eqb f FieldRequests then Requests c else Requests cfg.
Proof. field_cases f. Qed.

Lemma Override_field_Concurrency (c cfg : Config) (f : string) :
  Concurrency (Override_field c cfg f)
  = if String.eqb f FieldConcurrency then Concurrency c else Concurrency cfg.
Proof. field_cases f. Qed.

Lemma Override_field_GlobalTimeout (c cfg : Config) (f : string) :
  GlobalTimeout (Override_field c cfg f)
  = if String.eqb f FieldGlobalTimeout then GlobalTimeout c
    else GlobalTimeout cfg.
Proof. field_cases f. Qed.

(** X15.  [Override] replaces exactly the fields that are listed: each
    of the six fields of the result is the one of [c] when its name is
    among [fields] and the one of [cfg] otherwise; names that are not
    fields, repetitions and the order of [fields] change nothing. *)
Theorem Override_takes_listed_fields (cfg c : Config) (fields : list string) :
  Override cfg c fields
  = {| Method := if listed FieldMethod fields then Method c else Method cfg;
       URL := if listed FieldURL fields then URL c else URL cfg;
       Timeout := if listed FieldTimeout fields then Timeout c else Timeout cfg;
       Requests := if listed FieldRequests fields then Requests c
                   else Requests cfg;
       Concurrency := if listed FieldConcurrency fields then Concurrency c
                      else Concurrency cfg;
       GlobalTimeout := if listed FieldGlobalTimeout fields then GlobalTimeout c
                        else GlobalTimeout cfg |}.
Proof.
  unfold Override. revert cfg.
  induction fields as [|f fields IH]; intros cfg.
  - destruct cfg; reflexivity.
  - simpl fold_left. rewrite IH. unfold listed. simpl existsb.
    rewrite Override_field_Method, Override_field_URL, Override_field_Timeout,
      Override_field_Requests, Override_field_Concurrency,
      Override_field_GlobalTimeout.
    f_equal;
      match goal with
      | |- context [String.eqb f ?F] => destruct (String.eqb f F)
      end; simpl; try reflexivity;
      match goal with
      | |- context [existsb ?p fields] => destruct (existsb p fields)
      end; reflexivity.
Qed.

Lemma listed_ext (F : string) (fields fields' : list string) :
  (forall f, In f fields <-> In f fields') ->
  listed F fields = listed F fields'.
Proof.
  intros H. unfold listed.
  destruct (existsb (fun f => String.eqb f F) fields) eqn:E1,
           (existsb (fun f => String.eqb f F) fields') eqn:E2;
    try reflexivity.
  - apply existsb_exists in E1 as (x & Hx & Ex).
    assert (existsb (fun f => String.eqb f F) fields' = true)
      by (apply existsb_exists; exists x; split; [apply H; exact Hx | exact Ex]).
    congruence.
  - apply existsb_exists in E2 as (x & Hx & Ex).
    assert (existsb (fun f => String.eqb f F) fields = true)
      by (apply existsb_exists; exists x; split; [apply H; exact Hx | exact Ex]).
    congruence.
Qed.

(** X16.  [Override] depends on the set of names only and is
    idempotent: two lists with the same elements give the same result,
    and overriding a second time with the same [c] and [fields] changes
    nothing. *)
Theorem Override_laws (cfg c : Config) (fields fields' : list string) :
  ((forall f, In f fields <-> In f fields') ->
   Override cfg c fields = Override cfg c fields') /\
  Override (Override cfg c fields) c fields = Override cfg c fields.
Proof.
  split.
  - intros H. rewrite !Override_takes_listed_fields.
    rewrite !(listed_ext _ fields fields' H). reflexivity.
  - rewrite (Override_takes_listed_fields (Override cfg c fields)).
    rewrite (Override_takes_listed_fields cfg). simpl.
    f_equal;
      match goal with
      | |- context [listed ?F fields] => destruct (listed F fields)
      end; reflexivity.
Qed.

(** Two names, and the same two in another order with one of them
    twice. *)
Lemma Override_laws_witness :
  Override
    {| Method := "GET"; URL := None; Timeout := 1; Requests := 1;
       Concurrency := 1; GlobalTimeout := 1 |}
    {| Method := "POST"; URL := Some "http://a.b"; Timeout := 2; Requests := 2;
       Concurrency := 2; GlobalTimeout := 2 |}
    [FieldURL; FieldRequests]
  = Override
    {| Method := "GET"; URL := None; Timeout := 1; Requests := 1;
       Concurrency := 1; GlobalTimeout := 1 |}
    {| Method := "POST"; URL := Some "http://a.b"; Timeout := 2; Requests := 2;
       Concurrency := 2; GlobalTimeout := 2 |}
    [FieldRequests; FieldURL; FieldRequests].
Proof.
  apply (proj1 (Override_laws
    {| Method := "GET"; URL := None; Timeout := 1; Requests := 1;
       Concurrency := 1; GlobalTimeout := 1 |}
    {| Method := "POST"; URL := Some "http://a.b"; Timeout := 2; Requests := 2;
       Concurrency := 2; GlobalTimeout := 2 |}
    [FieldURL; FieldRequests] [FieldRequests; FieldURL; FieldRequests])).
  intros f. simpl. tauto.
Defined.

(** X17.  [overrideHeader] merges: a nil [newHeader] changes nothing;
    otherwise the header after the call holds, for every key, the values
    of [newHeader] when it has the key and those of the header before
    when it does not, whatever the order in which the entries are
    assigned. *)
Theorem overrideHeader_merges (old newHeader : Header) :
  match newHeader with
  | None => overrideHeader old newHeader = old
  | Some new =>
      exists h,
        overrideHeader old newHeader = Some h /\
        forall k,
          h !! k = match new !! k with
                   | Some v => Some v
                   | None => match old with
                             | Some o => o !! k
                             | None => None
                             end
                   end
  end.
Proof.
  destruct newHeader as [new|]; [|reflexivity].
  unfold overrideHeader. eexists. split; [reflexivity|].
  set (o := match old with Some h => h | None => ∅ end).
  assert (Ho : forall k, o !! k = match old with
                                  | Some h => h !! k
                                  | None => None
                                  end)
    by (intros k; unfold o; destruct old; [reflexivity | apply lookup_empty]).
  intros k. rewrite <- Ho.
  apply (map_fold_weak_ind
           (fun (r : gmap string (list string)) (m : gmap string (list string)) =>
              r !! k = match m !! k with Some v => Some v | None => o !! k end)).
  - rewrite lookup_empty. reflexivity.
  - intros i x m r Hi IH.
    destruct (decide (i = k)) as [->|Hne].
    + rewrite !lookup_insert_eq. reflexivity.
    + rewrite !lookup_insert_ne by exact Hne. exact IH.
Qed.

Lemma out_errors_nil (IsOutput : string -> bool) (e : string -> inputError)
    (out : list string) :
  flat_map (fun o => if IsOutput o then [] else [e o]) out = []
  <-> forallb IsOutput out = true.
Proof.
  induction out as [|o out IH]; simpl; [tauto|].
  destruct (IsOutput o); simpl; [exact IH|].
  split; discriminate.
Qed.

(** X18.  [Global.Validate] returns nil exactly for a configuration
    whose URL is set and parses, with [1 <= Concurrency <= Requests],
    durations that are not negative and at least one output, all of
    them known.  So [Requests = -1], which the rule on requests lets
    through, is never accepted: the rule on concurrency refuses it. *)
Theorem Validate_accepts (ParseRequestURI IsOutput : string -> bool)
    (cfg : Global) :
  Validate ParseRequestURI IsOutput cfg = None <->
  (exists u, GURL cfg = Some u /\ ParseRequestURI u = true) /\
  1 <= GConcurrency cfg <= GRequests cfg /\
  0 <= GInterval cfg /\ 0 <= GRequestTimeout cfg /\ 0 <= GGlobalTimeout cfg /\
  GOut cfg <> [] /\ forallb IsOutput (GOut cfg) = true.
Proof.
  unfold Validate. split.
  - intros H.
    destruct (inputErrors ParseRequestURI IsOutput cfg) eqn:E; [|discriminate].
    unfold inputErrors in E.
    apply app_eq_nil in E as [E1 E]. apply app_eq_nil in E as [E2 E].
    apply app_eq_nil in E as [E3 E]. apply app_eq_nil in E as [E4 E].
    apply app_eq_nil in E as [E5 E]. apply app_eq_nil in E as [E6 E7].
    split; [|split; [|split; [|split; [|split; [|split]]]]].
    + destruct (GURL cfg) as [u|]; [|discriminate].
      exists u. split; [reflexivity|].
      destruct (ParseRequestURI u); [reflexivity | discriminate].
    + destruct ((GConcurrency cfg <? 1) || (GConcurrency cfg >? GRequests cfg))
        eqn:C; [discriminate|].
      apply orb_false_iff in C as [C1 C2].
      apply Z.ltb_ge in C1. rewrite Z.gtb_ltb in C2. apply Z.ltb_ge in C2. lia.
    + destruct (GInterval cfg <? 0) eqn:C; [discriminate|].
      apply Z.ltb_ge in C. exact C.
    + destruct (GRequestTimeout cfg <? 0) eqn:C; [discriminate|].
      apply Z.ltb_ge in C. exact C.
    + destruct (GGlobalTimeout cfg <? 0) eqn:C; [discriminate|].
      apply Z.ltb_ge in C. exact C.
    + destruct (GOut cfg); [discriminate | discriminate].
    + destruct (GOut cfg) as [|o out] eqn:Ho; [discriminate|].
      rewrite <- Ho in *. apply out_errors_nil in E7. exact E7.
  - intros ((u & Hu & Hp) & Hc & Hi & Ht & Hg & Ho & Hf).
    unfold inputErrors. rewrite Hu, Hp.
    assert (C1 : (GRequests cfg <? 1) = false) by (apply Z.ltb_ge; lia).
    assert (C2 : (GConcurrency cfg <? 1) = false) by (apply Z.ltb_ge; lia).
    assert (C3 : (GConcurrency cfg >? GRequests cfg) = false)
      by (rewrite Z.gtb_ltb; apply Z.ltb_ge; lia).
    assert (C4 : (GInterval cfg <? 0) = false) by (apply Z.ltb_ge; lia).
    assert (C5 : (GRequestTimeout cfg <? 0) = false) by (apply Z.ltb_ge; lia).
    assert (C6 : (GGlobalTimeout cfg <? 0) = false) by (apply Z.ltb_ge; lia).
    rewrite C1, C2, C3, C4, C5, C6. simpl.
    destruct (GOut cfg) as [|o out] eqn:Eo; [congruence|].
    simpl in Hf. apply andb_true_iff in Hf as [Hf1 Hf2].
    rewrite Hf1. simpl.
    rewrite (proj2 (out_errors_nil IsOutput _ out) Hf2). reflexivity.
Qed.

(** Ten requests by two workers, written to a JSON file. *)
Lemma Validate_accepts_witness :
  Validate (fun _ => true) (fun o => String.eqb o "json")
    {| GURL := Some "http://a.b"; GRequests := 10; GConcurrency := 2;
       GInterval := 0; GRequestTimeout := 0; GGlobalTimeout := 0;
       GOut := ["json"] |} = None.
Proof.
  apply (proj2 (Validate_accepts (fun _ => true) (fun o => String.eqb o "json")
    {| GURL := Some "http://a.b"; GRequests := 10; GConcurrency := 2;
       GInterval := 0; GRequestTimeout := 0; GGlobalTimeout := 0;
       GOut := ["json"] |})).
  simpl. split; [exists "http://a.b"; split; reflexivity|].
  repeat split; try lia; try discriminate.
Defined.

(** X19.  A configuration that [Global.Validate] accepts is one the
    dispatcher accepts: [dispatcher.New] on its worker count does not
    panic, and [validate] lets its number of requests through with any
    non-nil callback. *)
Theorem Validate_then_dispatcher_accepts
    (ParseRequestURI IsOutput : string -> bool) (cfg : Global) (label : string) :
  Validate ParseRequestURI IsOutput cfg = None ->
  exists d,
    dispatcher.New (GConcurrency cfg) = Returns d /\
    dispatcher.validate d (GRequests cfg) (closure label) = None.
Proof.
  intros H. apply Validate_accepts in H as (_ & Hc & _).
  assert (exists d, dispatcher.New (GConcurrency cfg) = Returns d) as [d Hd].
  { unfold dispatcher.New.
    destruct (GConcurrency cfg <? 1) eqn:E; [apply Z.ltb_lt in E; lia|].
    eexists. reflexivity. }
  exists d. split; [exact Hd|].
  destruct (dispatcher_facts.New_inv _ _ Hd) as (_ & Hn & _).
  apply dispatcher_facts.validate_None. rewrite Hn.
  repeat split; try lia. discriminate.
Qed.

(** The same configuration, handed to the dispatcher. *)
Lemma Validate_then_dispatcher_accepts_witness :
  Validate (fun _ => true) (fun o => String.eqb o "json")
    {| GURL := Some "http://a.b"; GRequests := 10; GConcurrency := 2;
       GInterval := 0; GRequestTimeout := 0; GGlobalTimeout := 0;
       GOut := ["json"] |} = None /\
  exists d,
    dispatcher.New 2 = Returns d /\
    dispatcher.validate d 10 (closure "record") = None.
Proof.
  split; [reflexivity|].
  apply (Validate_then_dispatcher_accepts (fun _ => true)
    (fun o => String.eqb o "json")
    {| GURL := Some "http://a.b"; GRequests := 10; GConcurrency := 2;
       GInterval := 0; GRequestTimeout := 0; GGlobalTimeout := 0;
       GOut := ["json"] |} "record").
  reflexivity.
Defined.

End config_facts.

(** ** The requester whose [Run] is given the request *)
Module requester_req_facts.
Import requester_req.

(** X20.  This [Run] returns a non-nil error only when the pre-flight
    request failed (the error wraps [ErrConnection]) or when the
    dispatcher refused the configuration (it is the error of
    [validate], which wraps [ErrInvalidValue]); the Report is then the
    zero Report and the store is untouched.  With
    [1 <= Concurrency <= Requests] it neither panics nor returns the
    second error, so its only error is the failed pre-flight. *)
Theorem Run_error_is_connection_or_config {Report : Type} (zeroReport : Report)
    (makeReport : list RecordT -> Z -> Report)
    (w : requester.World) (r : Requester) :
  match Run zeroReport makeReport w r with
  | Panics _ _ => requester.ping_Do w = None /\ Concurrency (config r) < 1
  | Returns (r', (rep, Some e)) =>
      rep = zeroReport /\ r' = r /\
      ((errors_Is e ErrConnection = true /\ requester.ping_Do w <> None) \/
       (errors_Is e ErrInvalidValue = true /\ requester.ping_Do w = None /\
        ~ 1 <= Concurrency (config r) <= Requests (config r)))
  | Returns (r', (rep, None)) =>
      requester.ping_Do w = None /\
      1 <= Concurrency (config r) <= Requests (config r) /\
      r' = dispatch (Interval (config r)) (requester.attempts w) r /\
      rep = makeReport (records r') (numErr r')
  end.
Proof.
  unfold Run.
  destruct (requester.ping_Do w) as [err|] eqn:Hping.
  { split; [reflexivity|]. split; [reflexivity|]. left.
    split; [reflexivity | discriminate]. }
  destruct (dispatcher.New (Concurrency (config r))) as [d|f n] eqn:HN.
  2:{ split; [reflexivity|]. unfold dispatcher.New in HN.
      destruct (Concurrency (config r) <? 1) eqn:E; [|discriminate].
      apply Z.ltb_lt in E. exact E. }
  destruct (dispatcher_facts.New_inv _ _ HN) as (HW & Hn & _).
  destruct (dispatcher.validate d (Requests (config r)) (closure "record"))
    as [e|] eqn:Hv.
  - destruct (dispatcher_facts.validate_error _ _ _ _ Hv) as (Hi & _ & _).
    split; [reflexivity|]. split; [reflexivity|]. right.
    split; [exact Hi|]. split; [reflexivity|]. intros H.
    assert (dispatcher.validate d (Requests (config r)) (closure "record") = None)
      by (apply dispatcher_facts.validate_None; rewrite Hn;
          repeat split; try lia; discriminate).
    congruence.
  - apply dispatcher_facts.validate_None in Hv as (H1 & H2 & _).
    rewrite Hn in H2.
    split; [reflexivity|]. split; [lia|]. split; reflexivity.
Qed.

End requester_req_facts.
